(** * HIPStream: the HIP backend of the streaming-bandwidth benchmark

    A shallow embedding of [src/babelStream/hip/HIPStream.cpp]:
    the constructor with its calls into the HIP runtime, the element-wise
    kernels, the dot-product reduction and the read-back, followed by the
    properties of the backend contract.

    Conventions.
    - C [int] and [size_t] values are integers in [Z]; conversions to the
      unsigned types are written out ([wrap32], [to_size_t]).
    - Device buffers are lists; a load or store outside a buffer is a fault
      ([None]), which is how the undefined behaviour of the C++ is kept
      visible.
    - The HIP runtime is outside the repository: it is a record of answers
      ([hip_runtime]) and the constructor records every call it makes.
    - [HIPStream.h] and [Stream.h] are not part of the sources at hand; the
      two constants they define ([startScalar], [dot_elements_per_lane])
      are section variables. *)

From Stdlib Require Import ZArith List String Lia Bool.
From Stdlib Require Import SpecFloat.
From stdpp Require Import list.

Local Open Scope Z_scope.

(** ** Machine integers *)

Definition INT_MAX : Z := 2147483647.
Definition INT_MIN : Z := -2147483648.

(** Conversion to [unsigned int] (the members of [dim3], [threadIdx],
    [blockIdx], [blockDim], [gridDim]). *)
Definition wrap32 (z : Z) : Z := z mod 2 ^ 32.

(** Conversion to [size_t] (64 bits on every HIP platform). *)
Definition to_size_t (z : Z) : Z := z mod 2 ^ 64.

(** [#define TBSIZE 1024] *)
Definition TBSIZE : Z := 1024.

(** ** Element types

    [template class HIPStream<float>; template class HIPStream<double>;]
    The kernels use [T{}], [+] and [*] of the element type and the
    constructor uses [sizeof(T)]. *)

Class Numeric (T : Type) : Type := {
  sizeof : Z;
  elt_zero : T;
  elt_add : T -> T -> T;
  elt_mul : T -> T -> T
}.

(** IEEE 754 binary32 and binary64, with the arithmetic of [SpecFloat]
    (round to nearest, ties to even). The kernels are modelled with the
    operations the source writes, one rounding per [+] and per [*]; a
    compiler that contracts [b + scalar * c] into a fused multiply-add
    rounds once, which gives the same result wherever the product is exact,
    as it is for every value used with these two types below. *)
Inductive float : Type := Float (x : spec_float).
Inductive double : Type := Double (x : spec_float).

Definition float_add (x y : float) : float :=
  match x, y with Float u, Float v => Float (SFadd 24 128 u v) end.
Definition float_mul (x y : float) : float :=
  match x, y with Float u, Float v => Float (SFmul 24 128 u v) end.
Definition double_add (x y : double) : double :=
  match x, y with Double u, Double v => Double (SFadd 53 1024 u v) end.
Definition double_mul (x y : double) : double :=
  match x, y with Double u, Double v => Double (SFmul 53 1024 u v) end.

#[export] Instance float_numeric : Numeric float := {|
  sizeof := 4;
  elt_zero := Float (S754_zero false);
  elt_add := float_add;
  elt_mul := float_mul
|}.

#[export] Instance double_numeric : Numeric double := {|
  sizeof := 8;
  elt_zero := Double (S754_zero false);
  elt_add := double_add;
  elt_mul := double_mul
|}.

(** The literal [m * 2^e] as a [float] / [double]. *)
Definition float_lit (m e : Z) : float := Float (binary_normalize 24 128 m e false).
Definition double_lit (m e : Z) : double := Double (binary_normalize 53 1024 m e false).

(** ** The HIP runtime as seen by the host code *)

Inductive hipError_t : Type :=
| hipSuccess
| hipErrorInvalidValue
| hipErrorOutOfMemory
| hipErrorInvalidDevice
| hipErrorNoDevice
| hipErrorUnknown.

Definition hipError_eqb (x y : hipError_t) : bool :=
  match x, y with
  | hipSuccess, hipSuccess
  | hipErrorInvalidValue, hipErrorInvalidValue
  | hipErrorOutOfMemory, hipErrorOutOfMemory
  | hipErrorInvalidDevice, hipErrorInvalidDevice
  | hipErrorNoDevice, hipErrorNoDevice
  | hipErrorUnknown, hipErrorUnknown => true
  | _, _ => false
  end.

Record hipDeviceProp_t : Type := {
  name : string;
  totalGlobalMem : Z
}.

(** The runtime entry points the constructor reaches, with their
    by-value arguments. *)
Inductive hip_call : Type :=
| hipGetDeviceCount
| hipSetDevice (device : Z)
| hipGetDeviceProperties (device : Z)
| hipDriverGetVersion
| hipHostMalloc (bytes : Z)
| hipMalloc (bytes : Z).

Definition is_device_alloc (c : hip_call) : bool :=
  match c with hipMalloc _ => true | _ => false end.

Definition is_host_alloc (c : hip_call) : bool :=
  match c with hipHostMalloc _ => true | _ => false end.

Definition is_alloc (c : hip_call) : bool :=
  is_device_alloc c || is_host_alloc c.

(** What the code throws or how it leaves the process. *)
Inductive exception : Type :=
| runtime_error (what : string).

Inductive outcome (A : Type) : Type :=
| Returned (a : A)
| Thrown (e : exception)
| Exited (code : Z).
Arguments Returned {A} a.
Arguments Thrown {A} e.
Arguments Exited {A} code.

(** Host computations: the calls made so far are threaded through, oldest
    first. *)
Definition Host (A : Type) : Type := list hip_call -> outcome A * list hip_call.

Definition hret {A} (a : A) : Host A := fun tr => (Returned a, tr).

Definition hbind {A B} (m : Host A) (k : A -> Host B) : Host B :=
  fun tr =>
    match m tr with
    | (Returned a, tr') => k a tr'
    | (Thrown e, tr') => (Thrown e, tr')
    | (Exited c, tr') => (Exited c, tr')
    end.

Definition throw {A} (e : exception) : Host A := fun tr => (Thrown e, tr).
Definition exit {A} (code : Z) : Host A := fun tr => (Exited code, tr).

Declare Scope host_scope.
Delimit Scope host_scope with host.
Notation "x <- m ;; k" := (hbind m (fun x => k))
  (at level 100, m at next level, right associativity) : host_scope.
Notation "m ;; k" := (hbind m (fun _ => k))
  (at level 100, right associativity) : host_scope.

(** The error taxonomy of the backend contract, read off the three ways the
    constructor can fail: the two argument checks, the capacity check, and
    a failed runtime call (which [HIP_CHECK] turns into [exit(-1)]). *)
Inductive error_kind : Type :=
| ConfigurationError
| ResourceExhaustedError
| DeviceExecutionError.

Definition msg_array_size : string := "Array size must be a multiple of 1024".
Definition msg_device_index : string := "Invalid device index".
Definition msg_memory : string := "Device does not have enough memory for all 3 buffers".

Definition error_kind_of {A} (o : outcome A) : option error_kind :=
  match o with
  | Returned _ => None
  | Thrown (runtime_error what) =>
      if String.eqb what msg_array_size then Some ConfigurationError
      else if String.eqb what msg_device_index then Some ConfigurationError
      else if String.eqb what msg_memory then Some ResourceExhaustedError
      else None
  | Exited _ => Some DeviceExecutionError
  end.

(** ** Device memory and kernels *)

(** The four buffers a [HIPStream] owns: [d_a], [d_b], [d_c] on the device
    and the host-visible partial-sum array [sums]. Kernel arguments of
    pointer type are names of these buffers. *)
Inductive buffer : Type := Da | Db | Dc | Sums.

Inductive access : Type :=
| Load (p : buffer) (i : Z)
| Store (p : buffer) (i : Z).

(** [threadIdx.x], [blockIdx.x], [blockDim.x], [gridDim.x] of one lane. *)
Record thread : Type := {
  threadIdx_x : Z;
  blockIdx_x : Z;
  blockDim_x : Z;
  gridDim_x : Z
}.

(** Lanes of block [b], and all lanes of a launch
    [<<<dim3(grid), dim3(block)>>>], block by block. *)
Definition block_threads (grid block : Z) (b : nat) : list thread :=
  map (fun t => {| threadIdx_x := Z.of_nat t; blockIdx_x := Z.of_nat b;
                   blockDim_x := block; gridDim_x := grid |})
      (seq 0 (Z.to_nat block)).

Definition grid_threads (grid block : Z) : list thread :=
  flat_map (block_threads grid block) (seq 0 (Z.to_nat grid)).

Section Backend.
Context {T : Type} {numeric : Numeric T}.

(** [startScalar], the multiplier of Scale, Triad and Extended-Triad. It is
    defined in [Stream.h], which is not among the sources, and is kept as a
    parameter (already converted to [T]). *)
Variable startScalar : T.

(** [dot_elements_per_lane], the number of elements a lane of the reduction
    is sized for. It is a constant of [HIPStream.h], which is not among the
    sources either; its type is not known here, so the arithmetic on it is
    that of [Z]. *)
Variable dot_elements_per_lane : Z.

Record memory : Type := {
  d_a : list T;
  d_b : list T;
  d_c : list T;
  sums : list T
}.

Definition get_buffer (m : memory) (p : buffer) : list T :=
  match p with Da => d_a m | Db => d_b m | Dc => d_c m | Sums => sums m end.

Definition set_buffer (m : memory) (p : buffer) (l : list T) : memory :=
  match p with
  | Da => {| d_a := l; d_b := d_b m; d_c := d_c m; sums := sums m |}
  | Db => {| d_a := d_a m; d_b := l; d_c := d_c m; sums := sums m |}
  | Dc => {| d_a := d_a m; d_b := d_b m; d_c := l; sums := sums m |}
  | Sums => {| d_a := d_a m; d_b := d_b m; d_c := d_c m; sums := l |}
  end.

(** Device code: it runs on the memory, may fault, and leaves the list of
    the global-memory accesses it made, oldest first. *)
Definition Kernel (A : Type) : Type := memory -> option (A * memory * list access).

Definition kret {A} (a : A) : Kernel A := fun m => Some (a, m, []).

Definition kbind {A B} (c : Kernel A) (k : A -> Kernel B) : Kernel B :=
  fun m =>
    match c m with
    | Some (a, m1, l1) =>
        match k a m1 with
        | Some (b, m2, l2) => Some (b, m2, l1 ++ l2)
        | None => None
        end
    | None => None
    end.

Definition fault {A} : Kernel A := fun _ => None.

Definition in_bounds (l : list T) (i : Z) : bool :=
  (0 <=? i) && (i <? Z.of_nat (length l)).

(** [p[i]] as an rvalue. *)
Definition load (p : buffer) (i : Z) : Kernel T :=
  fun m =>
    if in_bounds (get_buffer m p) i then
      match get_buffer m p !! Z.to_nat i with
      | Some v => Some (v, m, [Load p i])
      | None => None
      end
    else None.

(** [p[i] = v]. *)
Definition store (p : buffer) (i : Z) (v : T) : Kernel unit :=
  fun m =>
    if in_bounds (get_buffer m p) i then
      Some (tt, set_buffer m p (<[Z.to_nat i := v]> (get_buffer m p)), [Store p i])
    else None.

Declare Scope kernel_scope.
Delimit Scope kernel_scope with kernel.
Notation "x <- m ;; k" := (kbind m (fun x => k))
  (at level 100, m at next level, right associativity) : kernel_scope.
Notation "m ;; k" := (kbind m (fun _ => k))
  (at level 100, right associativity) : kernel_scope.

(** The lanes of a launch, run one after the other in block order. The
    element-wise kernels have no barrier and each lane works on its own
    index, so this is one of the equivalent schedules. *)
Fixpoint run_threads (k : thread -> Kernel unit) (ths : list thread) : Kernel unit :=
  match ths with
  | [] => kret tt
  | th :: rest => (k th ;; run_threads k rest)%kernel
  end.

(** [k<<<dim3(grid), dim3(block), 0, 0>>>(...)]; the members of [dim3] are
    [unsigned int]. *)
Definition launch (grid block : Z) (k : thread -> Kernel unit) : Kernel unit :=
  run_threads k (grid_threads (wrap32 grid) (wrap32 block)).

(** [blockDim.x * blockIdx.x + threadIdx.x], computed in [unsigned int]. *)
Definition global_index (th : thread) : Z :=
  wrap32 (wrap32 (blockDim_x th * blockIdx_x th) + threadIdx_x th).

Definition init_kernel (a b c : buffer) (initA initB initC : T) (th : thread) : Kernel unit :=
  (let i := global_index th in
   store a i initA ;;
   store b i initB ;;
   store c i initC)%kernel.

Definition copy_kernel (a c : buffer) (th : thread) : Kernel unit :=
  (let i := global_index th in
   x <- load a i ;;
   store c i x)%kernel.

Definition mul_kernel (b c : buffer) (th : thread) : Kernel unit :=
  (let scalar := startScalar in
   let i := global_index th in
   x <- load c i ;;
   store b i (elt_mul scalar x))%kernel.

Definition add_kernel (a b c : buffer) (th : thread) : Kernel unit :=
  (let i := global_index th in
   x <- load a i ;;
   y <- load b i ;;
   store c i (elt_add x y))%kernel.

Definition triad_kernel (a b c : buffer) (th : thread) : Kernel unit :=
  (let scalar := startScalar in
   let i := global_index th in
   y <- load b i ;;
   z <- load c i ;;
   store a i (elt_add y (elt_mul scalar z)))%kernel.

(** [a[i] += b[i] + scalar * c[i]]: the right-hand side is evaluated, then
    [a[i]] is read and written. *)
Definition nstream_kernel (a b c : buffer) (th : thread) : Kernel unit :=
  (let scalar := startScalar in
   let i := global_index th in
   y <- load b i ;;
   z <- load c i ;;
   x <- load a i ;;
   store a i (elt_add x (elt_add y (elt_mul scalar z))))%kernel.

(** *** The dot kernel *)

(** The grid-stride loop of one lane,
    [for (; i < array_size; i += blockDim.x*gridDim.x) tb_sum[local_i] += a[i] * b[i];]
    with [acc] standing for the lane's cell [tb_sum[local_i]]. [i] is a
    [size_t], [array_size] an [int] converted for the comparison, the
    stride an [unsigned int] product. *)
Fixpoint dot_lane_loop (fuel : nat) (a b : buffer) (array_size : Z) (th : thread)
    (i : Z) (acc : T) : Kernel T :=
  match fuel with
  | O => fault
  | S fuel' =>
      if i <? to_size_t array_size then
        (x <- load a i ;;
         y <- load b i ;;
         dot_lane_loop fuel' a b array_size th
           (to_size_t (i + wrap32 (blockDim_x th * gridDim_x th)))
           (elt_add acc (elt_mul x y)))%kernel
      else kret acc
  end.

(** Up to the first barrier: [tb_sum[local_i] = {}] and the loop. *)
Definition dot_lane (fuel : nat) (a b : buffer) (array_size : Z) (th : thread) : Kernel T :=
  let local_i := threadIdx_x th in
  let i := to_size_t (wrap32 (blockDim_x th * blockIdx_x th) + local_i) in
  dot_lane_loop fuel a b array_size th i elt_zero.

(** All lanes of a block up to the first barrier; the result is the shared
    array [tb_sum], one cell per lane. *)
Fixpoint dot_lanes (fuel : nat) (a b : buffer) (array_size : Z) (ths : list thread)
    : Kernel (list T) :=
  match ths with
  | [] => kret []
  | th :: rest =>
      (x <- dot_lane fuel a b array_size th ;;
       xs <- dot_lanes fuel a b array_size rest ;;
       kret (x :: xs))%kernel
  end.

(** One round between two barriers: every lane with [local_i < offset]
    does [tb_sum[local_i] += tb_sum[local_i+offset]]. The cells read are
    at [offset] or above, the cells written below it. *)
Fixpoint reduce_lanes (offset : Z) (tb : list T) (local_i : nat) (cells : list T)
    : option (list T) :=
  match cells with
  | [] => Some []
  | x :: rest =>
      match reduce_lanes offset tb (S local_i) rest with
      | Some rest' =>
          if Z.of_nat local_i <? offset then
            match tb !! Z.to_nat (Z.of_nat local_i + offset) with
            | Some y => Some (elt_add x y :: rest')
            | None => None
            end
          else Some (x :: rest')
      | None => None
      end
  end.

(** [for (size_t offset = blockDim.x / 2; offset > 0; offset /= 2)]. *)
Fixpoint tree_reduce (fuel : nat) (offset : Z) (tb : list T) : option (list T) :=
  match fuel with
  | O => None
  | S fuel' =>
      if 0 <? offset then
        match reduce_lanes offset tb 0 tb with
        | Some tb' => tree_reduce fuel' (offset / 2) tb'
        | None => None
        end
      else Some tb
  end.

Definition lift {A} (o : option A) : Kernel A :=
  fun m => match o with Some a => Some (a, m, []) | None => None end.

(** One work group of [dot_kernel]. [tb_sum] has [TBSIZE] cells, so a
    block wider than that would index outside it. *)
Definition dot_block (fuel : nat) (a b sum : buffer) (array_size : Z)
    (grid block : Z) (blk : nat) : Kernel unit :=
  if block <=? TBSIZE then
    (tb <- dot_lanes fuel a b array_size (block_threads grid block blk) ;;
     tb' <- lift (tree_reduce (S (Z.to_nat block)) (block / 2) tb) ;;
     match tb' !! 0%nat with
     | Some v => store sum (Z.of_nat blk) v
     | None => kret tt
     end)%kernel
  else fault.

Fixpoint run_blocks (k : nat -> Kernel unit) (blks : list nat) : Kernel unit :=
  match blks with
  | [] => kret tt
  | blk :: rest => (k blk ;; run_blocks k rest)%kernel
  end.

(** [dot_kernel<<<dim3(grid), dim3(block), 0, 0>>>(a, b, sum, array_size)]. *)
Definition dot_kernel (fuel : nat) (a b sum : buffer) (array_size : Z)
    (grid block : Z) : Kernel unit :=
  run_blocks (dot_block fuel a b sum array_size (wrap32 grid) (wrap32 block))
    (seq 0 (Z.to_nat (wrap32 grid))).

(** The host loop [for (int i = 0; i < dot_num_blocks; i++) sum += sums[i];]. *)
Fixpoint sum_partials (idx : list nat) (sum : T) : Kernel T :=
  match idx with
  | [] => kret sum
  | i :: rest => (x <- load Sums (Z.of_nat i) ;; sum_partials rest (elt_add sum x))%kernel
  end.

(** ** The [HIPStream] object *)

Record HIPStream : Type := {
  array_size : Z;
  dot_num_blocks : Z;
  mem : memory
}.

Definition with_memory (s : HIPStream) (m : memory) : HIPStream :=
  {| array_size := array_size s; dot_num_blocks := dot_num_blocks s; mem := m |}.

(** A kernel launch followed by [HIP_CHECK(hipGetLastError())] and
    [HIP_CHECK(hipDeviceSynchronize())]: the call returns once the kernel
    has run; a device fault ends the process and is [None] here. *)
Definition run_on (s : HIPStream) (k : Kernel unit) : option (HIPStream * list access) :=
  match k (mem s) with
  | Some (_, m, accesses) => Some (with_memory s m, accesses)
  | None => None
  end.

Definition init_arrays (initA initB initC : T) (s : HIPStream) :=
  run_on s (launch (Z.quot (array_size s) TBSIZE) TBSIZE
              (init_kernel Da Db Dc initA initB initC)).

Definition copy (s : HIPStream) :=
  run_on s (launch (Z.quot (array_size s) TBSIZE) TBSIZE (copy_kernel Da Dc)).

Definition mul (s : HIPStream) :=
  run_on s (launch (Z.quot (array_size s) TBSIZE) TBSIZE (mul_kernel Db Dc)).

Definition add (s : HIPStream) :=
  run_on s (launch (Z.quot (array_size s) TBSIZE) TBSIZE (add_kernel Da Db Dc)).

Definition triad (s : HIPStream) :=
  run_on s (launch (Z.quot (array_size s) TBSIZE) TBSIZE (triad_kernel Da Db Dc)).

Definition nstream (s : HIPStream) :=
  run_on s (launch (Z.quot (array_size s) TBSIZE) TBSIZE (nstream_kernel Da Db Dc)).

(** The grid-stride loop of a lane makes at most [array_size] rounds and
    then one failing test, which is the fuel it is given. *)
Definition dot_fuel (s : HIPStream) : nat := S (Z.to_nat (array_size s)).

Definition dot (s : HIPStream) : option (T * HIPStream * list access) :=
  match
    (dot_kernel (dot_fuel s) Da Db Sums (array_size s) (dot_num_blocks s) TBSIZE ;;
     sum_partials (seq 0 (Z.to_nat (dot_num_blocks s))) elt_zero)%kernel (mem s)
  with
  | Some (sum, m, accesses) => Some (sum, with_memory s m, accesses)
  | None => None
  end.

(** *** Read-back *)

(** [hipMemcpy(dst.data(), src, dst.size()*sizeof(T), hipMemcpyDeviceToHost)]:
    as many elements as the host vector holds; reading past the end of the
    device buffer is a fault. *)
Definition hipMemcpy_to_host (dst src : list T) : option (list T) :=
  if (length dst <=? length src)%nat then Some (take (length dst) src) else None.

(** The loop of the [PAGEFAULT] / [MANAGED] build: [dst[i] = src[i]] for
    [i] below [array_size]; both sides must have the cell. *)
Fixpoint copy_cells (idx : list nat) (dst src : list T) : option (list T) :=
  match idx with
  | [] => Some dst
  | i :: rest =>
      match src !! i with
      | Some v =>
          if (i <? length dst)%nat then copy_cells rest (<[i := v]> dst) src
          else None
      | None => None
      end
  end.

(** Which branch of [#if defined(PAGEFAULT) || defined(MANAGED)] is built. *)
Inductive transfer_mode : Type := explicit_copy | managed.

Definition read_arrays (mode : transfer_mode) (s : HIPStream) (a b c : list T)
    : option (list T * list T * list T) :=
  match mode with
  | managed =>
      let idx := seq 0 (Z.to_nat (array_size s)) in
      match copy_cells idx a (d_a (mem s)),
            copy_cells idx b (d_b (mem s)),
            copy_cells idx c (d_c (mem s)) with
      | Some a', Some b', Some c' => Some (a', b', c')
      | _, _, _ => None
      end
  | explicit_copy =>
      match hipMemcpy_to_host a (d_a (mem s)),
            hipMemcpy_to_host b (d_b (mem s)),
            hipMemcpy_to_host c (d_c (mem s)) with
      | Some a', Some b', Some c' => Some (a', b', c')
      | _, _, _ => None
      end
  end.

(** ** Construction *)

(** The answers of the runtime. The status of a call may depend on the calls
    made before it; the device count, the device properties and the driver
    version are facts of the machine. [rt_uninitialized k i] is what cell
    [i] of the [k]-th allocation of the constructor holds before anything is
    written to it. *)
Record hip_runtime : Type := {
  rt_status : list hip_call -> hip_call -> hipError_t;
  rt_device_count : Z;
  rt_properties : Z -> hipDeviceProp_t;
  rt_driver_version : Z;
  rt_uninitialized : nat -> nat -> T
}.

Variable rt : hip_runtime.

Definition call (c : hip_call) : Host hipError_t :=
  fun tr => (Returned (rt_status rt tr c), tr ++ [c]).

(** [HIP_CHECK(stat)]. The macro pastes its argument twice: in the test
    [stat != hipSuccess] and in [hipGetErrorString(stat)]. When the first
    evaluation gives anything but [hipSuccess], the runtime call is made a
    second time for the message, whatever it answers then, and [exit(-1)]
    follows. *)
Definition HIP_CHECK (stat : Host hipError_t) : Host unit :=
  (st <- stat ;;
   if hipError_eqb st hipSuccess then hret tt
   else (stat ;; exit (-1)))%host.

Definition getDeviceName (device : Z) : Host string :=
  (HIP_CHECK (call (hipGetDeviceProperties device)) ;;
   hret (name (rt_properties rt device)))%host.

Definition getDeviceDriver (device : Z) : Host Z :=
  (HIP_CHECK (call (hipSetDevice device)) ;;
   HIP_CHECK (call hipDriverGetVersion) ;;
   hret (rt_driver_version rt))%host.

(** A buffer of [bytes] bytes as cells of [T]. *)
Definition fresh_buffer (k : nat) (bytes : Z) : list T :=
  map (rt_uninitialized rt k) (seq 0 (Z.to_nat (bytes / sizeof))).

(** [HIPStream<T>::HIPStream(const int ARRAY_SIZE, const int device_index)].
    Writing to [std::cout] has no bearing on what follows and is left out;
    the two helper calls whose results are printed are kept, since they
    reach the runtime. Of [hipHostMalloc] the size is recorded, the flag
    [hipHostMallocNonCoherent] is not. *)
Definition HIPStream_new (ARRAY_SIZE device_index : Z) : Host HIPStream :=
  (if negb (Z.rem ARRAY_SIZE TBSIZE =? 0) then
     throw (runtime_error msg_array_size)
   else
     HIP_CHECK (call hipGetDeviceCount) ;;
     let count := rt_device_count rt in
     if device_index >=? count then
       throw (runtime_error msg_device_index)
     else
       HIP_CHECK (call (hipSetDevice device_index)) ;;
       _ <- getDeviceName device_index ;;
       _ <- getDeviceDriver device_index ;;
       let array_size := ARRAY_SIZE in
       let dot_num_blocks :=
         Z.quot (array_size + (TBSIZE * dot_elements_per_lane - 1))
                (TBSIZE * dot_elements_per_lane) in
       let array_bytes := to_size_t (sizeof * ARRAY_SIZE) in
       let sums_bytes := to_size_t (sizeof * dot_num_blocks) in
       HIP_CHECK (call (hipHostMalloc sums_bytes)) ;;
       HIP_CHECK (call (hipGetDeviceProperties 0)) ;;
       let props := rt_properties rt 0 in
       if totalGlobalMem props <? to_size_t (to_size_t (3 * ARRAY_SIZE) * sizeof) then
         throw (runtime_error msg_memory)
       else
         HIP_CHECK (call (hipMalloc array_bytes)) ;;
         HIP_CHECK (call (hipMalloc array_bytes)) ;;
         HIP_CHECK (call (hipMalloc array_bytes)) ;;
         hret {| array_size := array_size;
                 dot_num_blocks := dot_num_blocks;
                 mem := {| d_a := fresh_buffer 1 array_bytes;
                           d_b := fresh_buffer 2 array_bytes;
                           d_c := fresh_buffer 3 array_bytes;
                           sums := fresh_buffer 0 sums_bytes |} |})%host.

(** ** Vocabulary of the contract *)

(** An array length the backend accepts: a positive [int] that is a multiple
    of the work-group size. *)
Definition valid_size (N : Z) : Prop :=
  0 < N <= INT_MAX /\ Z.rem N TBSIZE = 0.

(** The state of an object between two calls: the three arrays have
    [array_size] cells, [sums] has [dot_num_blocks] cells, and the number
    of work groups of the reduction is positive and fits the grid. *)
Record well_formed (s : HIPStream) : Prop := {
  wf_size : valid_size (array_size s);
  wf_a : Z.of_nat (length (d_a (mem s))) = array_size s;
  wf_b : Z.of_nat (length (d_b (mem s))) = array_size s;
  wf_c : Z.of_nat (length (d_c (mem s))) = array_size s;
  wf_blocks : 0 < dot_num_blocks s < 2 ^ 22;
  wf_sums : Z.of_nat (length (sums (mem s))) = dot_num_blocks s
}.

(** Cell-by-cell image of three arrays of equal length. *)
Fixpoint map3 (f : T -> T -> T -> T) (a b c : list T) : list T :=
  match a, b, c with
  | x :: a', y :: b', z :: c' => f x y z :: map3 f a' b' c'
  | _, _, _ => []
  end.

Definition buffer_eqb (p q : buffer) : bool :=
  match p, q with
  | Da, Da | Db, Db | Dc, Dc | Sums, Sums => true
  | _, _ => false
  end.

(** The indices of [p] read, and written, in a list of accesses. *)
Definition loads_of (p : buffer) (l : list access) : list Z :=
  flat_map (fun x => match x with
                     | Load q i => if buffer_eqb p q then [i] else []
                     | Store _ _ => []
                     end) l.

Definition stores_of (p : buffer) (l : list access) : list Z :=
  flat_map (fun x => match x with
                     | Store q i => if buffer_eqb p q then [i] else []
                     | Load _ _ => []
                     end) l.

(** An access that stays inside its buffer, for an object with arrays of
    [N] cells and [nb] partial sums. *)
Definition access_ok (N nb : Z) (x : access) : Prop :=
  match x with
  | Load Sums i | Store Sums i => 0 <= i < nb
  | Load _ i | Store _ i => 0 <= i < N
  end.

(** [R] calls of a kernel method in a row. *)
Fixpoint repeat_call (op : HIPStream -> option (HIPStream * list access))
    (R : nat) (s : HIPStream) : option HIPStream :=
  match R with
  | O => Some s
  | S R' =>
      match op s with
      | Some (s', _) => repeat_call op R' s'
      | None => None
      end
  end.

End Backend.

Arguments memory T : clear implicits.
Arguments HIPStream T : clear implicits.
Arguments hip_runtime T : clear implicits.

(** ** Vocabulary of the proofs *)

Section Vocabulary.
Context {T : Type} {numeric : Numeric T}.

Definition set_cells (m : memory T) (j : nat) (v : T * T * T) : memory T :=
  {| d_a := <[j := v.1.1]> (d_a m);
     d_b := <[j := v.1.2]> (d_b m);
     d_c := <[j := v.2]> (d_c m);
     sums := sums m |}.

Definition cell_at (m : memory T) (j : nat) : option (T * T * T) :=
  match d_a m !! j, d_b m !! j, d_c m !! j with
  | Some x, Some y, Some z => Some (x, y, z)
  | _, _, _ => None
  end.

Definition cellwise (k : thread -> Kernel unit) (g : T -> T -> T -> T * T * T)
    (acc : Z -> list access) : Prop :=
  forall th m x y z,
    0 <= global_index th ->
    cell_at m (Z.to_nat (global_index th)) = Some (x, y, z) ->
    k th m = Some (tt, set_cells m (Z.to_nat (global_index th)) (g x y z),
                   acc (global_index th)).

(** [a[j] * b[j]]. *)
Definition prod_at (a b : list T) (j : Z) : T :=
  match a !! Z.to_nat j, b !! Z.to_nat j with
  | Some x, Some y => elt_mul x y
  | _, _ => elt_zero
  end.

(** The indices [i], [i + stride], [i + 2 stride], ... below [N]. *)
Fixpoint strided (fuel : nat) (i stride N : Z) : list Z :=
  match fuel with
  | O => []
  | S fuel' => if i <? N then i :: strided fuel' (i + stride) stride N else []
  end.

Definition lane_log (js : list Z) : list access :=
  flat_map (fun j => [Load Da j; Load Db j]) js.

Definition lane_sum (a b : list T) (js : list Z) (acc : T) : T :=
  fold_left (fun acc j => elt_add acc (prod_at a b j)) js acc.

(** The indices lane [t] of block [blk] visits. *)
Definition lane_indices (fuel : nat) (N G B : Z) (blk t : nat) : list Z :=
  strided fuel (B * Z.of_nat blk + Z.of_nat t) (B * G) N.

(** What lane 0 holds after the tree reduction of the shared array. *)
Definition block_fold (B : Z) (tb : list T) : T :=
  match tree_reduce (S (Z.to_nat B)) (B / 2) tb with
  | Some (v :: _) => v
  | _ => elt_zero
  end.

(** The partial sum block [blk] leaves in [sums]. *)
Definition block_total (fuel : nat) (a b : list T) (N G B : Z) (blk : nat) : T :=
  block_fold B (map (fun t => lane_sum a b (lane_indices fuel N G B blk t) elt_zero)
                    (seq 0 (Z.to_nat B))).

Definition block_log (fuel : nat) (N G B : Z) (blk : nat) : list access :=
  flat_map (fun t => lane_log (lane_indices fuel N G B blk t)) (seq 0 (Z.to_nat B))
  ++ [Store Sums (Z.of_nat blk)].

(** The contents of [sums] after the kernel, the value [dot] returns and
    the accesses it makes. *)
Definition dot_partials (s : HIPStream T) : list T :=
  map (block_total (dot_fuel s) (d_a (mem s)) (d_b (mem s)) (array_size s)
         (dot_num_blocks s) TBSIZE)
      (seq 0 (Z.to_nat (dot_num_blocks s))).

Definition dot_value (s : HIPStream T) : T :=
  fold_left elt_add (dot_partials s) elt_zero.

Definition dot_log (s : HIPStream T) : list access :=
  flat_map (block_log (dot_fuel s) (array_size s) (dot_num_blocks s) TBSIZE)
           (seq 0 (Z.to_nat (dot_num_blocks s)))
  ++ map (fun i => Load Sums (Z.of_nat i)) (seq 0 (Z.to_nat (dot_num_blocks s))).

(** All indices the lanes of a grid of [G] blocks of [B] lanes visit. *)
Definition grid_indices (fuel : nat) (N G B : Z) : list Z :=
  flat_map (fun blk => flat_map (lane_indices fuel N G B blk) (seq 0 (Z.to_nat B)))
           (seq 0 (Z.to_nat G)).

(** The reduction when every product [a[j] * b[j]] is the same value [v]. *)
Definition count_sum (v : T) (js : list Z) (acc : T) : T :=
  fold_left (fun acc _ => elt_add acc v) js acc.

Definition uniform_block (v : T) (fuel : nat) (N G B : Z) (blk : nat) : T :=
  block_fold B (map (fun t => count_sum v (lane_indices fuel N G B blk t) elt_zero)
                    (seq 0 (Z.to_nat B))).

Definition uniform_dot (v : T) (fuel : nat) (N G B : Z) : T :=
  fold_left elt_add (map (uniform_block v fuel N G B) (seq 0 (Z.to_nat G))) elt_zero.

(** Every call of the runtime reports success. *)
Definition runtime_ok (rt : hip_runtime T) : Prop :=
  forall tr c, rt_status rt tr c = hipSuccess.

(** The number of work groups of the reduction, as the constructor computes
    it. *)
Definition blocks_for (dot_elements_per_lane N : Z) : Z :=
  Z.quot (N + (TBSIZE * dot_elements_per_lane - 1)) (TBSIZE * dot_elements_per_lane).

(** Construction ends in a [ResourceExhaustedError] and no allocation of any
    kind was requested on the way. *)
Definition exhausted_without_allocating (r : outcome (HIPStream T) * list hip_call) : Prop :=
  error_kind_of (fst r) = Some ResourceExhaustedError /\
  Forall (fun c => is_alloc c = false) (snd r).

(** An object whose buffers are filled with one value each. *)
Definition uniform_stream (N nb : Z) (x y z w : T) : HIPStream T :=
  {| array_size := N;
     dot_num_blocks := nb;
     mem := {| d_a := replicate (Z.to_nat N) x;
               d_b := replicate (Z.to_nat N) y;
               d_c := replicate (Z.to_nat N) z;
               sums := replicate (Z.to_nat nb) w |} |}.

(** No store goes to a buffer outside [ps]. *)
Definition writes_only (ps : list buffer) (l : list access) : Prop :=
  forall q, ~ In q ps -> stores_of q l = [].

(** [Initialize(one, one, one)] and two runs of Extended-Triad with scalar
    [one]: [a] is [three] everywhere, then [five]; [b] and [c] stay. *)
Definition nstream_twice (one three five : T) (s : HIPStream T) : Prop :=
  exists s1 l1 s2 l2 s3 l3,
    init_arrays one one one s = Some (s1, l1) /\
    nstream one s1 = Some (s2, l2) /\
    nstream one s2 = Some (s3, l3) /\
    d_a (mem s2) = replicate (Z.to_nat (array_size s)) three /\
    d_a (mem s3) = replicate (Z.to_nat (array_size s)) five /\
    d_b (mem s2) = d_b (mem s1) /\ d_c (mem s2) = d_c (mem s1) /\
    d_b (mem s3) = d_b (mem s1) /\ d_c (mem s3) = d_c (mem s1).

(** [Initialize(a0, b0, c0)] and Triad with [scalar]: [a] is [result]
    everywhere after one run, after a second run, and after any number
    [R >= 1] of runs; [b] and [c] stay. *)
Definition triad_stable (scalar a0 b0 c0 result : T) (s : HIPStream T) : Prop :=
  exists s1 l1 s2 l2,
    init_arrays a0 b0 c0 s = Some (s1, l1) /\
    triad scalar s1 = Some (s2, l2) /\
    d_a (mem s2) = replicate (Z.to_nat (array_size s)) result /\
    d_b (mem s2) = d_b (mem s1) /\ d_c (mem s2) = d_c (mem s1) /\
    (exists s3 l3, triad scalar s2 = Some (s3, l3) /\
                   d_a (mem s3) = replicate (Z.to_nat (array_size s)) result /\
                   d_b (mem s3) = d_b (mem s1) /\ d_c (mem s3) = d_c (mem s1)) /\
    (forall R, (1 <= R)%nat -> repeat_call (triad scalar) R s1 = Some s2).

(** [a[i] = one], [b[i] = two] on arrays of 8192 cells: [dot] returns
    [result]. *)
Definition dot_of_ones_and_twos (one two result : T) (s : HIPStream T) : Prop :=
  array_size s = 8192 ->
  d_a (mem s) = replicate (Z.to_nat (array_size s)) one ->
  d_b (mem s) = replicate (Z.to_nat (array_size s)) two ->
  exists s' l, dot s = Some (result, s', l).

(** A kernel method returned, changed no buffer outside [targets], stored
    to no buffer outside [targets], and left the sizes alone. *)
Definition frame_ok (s : HIPStream T) (targets : list buffer)
    (r : option (HIPStream T * list access)) : Prop :=
  exists s' l,
    r = Some (s', l) /\
    (forall p, ~ In p targets -> get_buffer (mem s') p = get_buffer (mem s) p) /\
    writes_only targets l /\
    array_size s' = array_size s /\ dot_num_blocks s' = dot_num_blocks s.

(** A kernel method returned, every access was inside its buffer, and each
    buffer of [reads] was loaded, each buffer of [writes] stored, at every
    index below [array_size] exactly once, in index order. *)
Definition sweep_ok (s : HIPStream T) (reads writes : list buffer)
    (r : option (HIPStream T * list access)) : Prop :=
  exists s' l,
    r = Some (s', l) /\
    Forall (access_ok (array_size s) (dot_num_blocks s)) l /\
    (forall p, In p reads -> loads_of p l = seqZ 0 (array_size s)) /\
    (forall p, In p writes -> stores_of p l = seqZ 0 (array_size s)).

Definition drop_value (r : option (T * HIPStream T * list access))
    : option (HIPStream T * list access) :=
  match r with Some (_, s', l) => Some (s', l) | None => None end.

Definition ones_and_twos (one two : T) (s : HIPStream T) : Prop :=
  array_size s = 8192 /\
  d_a (mem s) = replicate (Z.to_nat (array_size s)) one /\
  d_b (mem s) = replicate (Z.to_nat (array_size s)) two.

End Vocabulary.

(** ** Concrete machines and objects *)

Definition GiB : Z := 1073741824.

(** A machine with two devices of [mem0] and [mem1] bytes on which every
    call succeeds, except selecting a device that does not exist. *)
Definition two_devices (mem0 mem1 : Z) : hip_runtime float := {|
  rt_status := fun _ c =>
    match c with
    | hipSetDevice d => if (0 <=? d) && (d <? 2) then hipSuccess else hipErrorInvalidDevice
    | _ => hipSuccess
    end;
  rt_device_count := 2;
  rt_properties := fun d =>
    if d =? 0 then {| name := "gfx90a-0"; totalGlobalMem := mem0 |}
    else {| name := "gfx90a-1"; totalGlobalMem := mem1 |};
  rt_driver_version := 60200000;
  rt_uninitialized := fun _ _ => Float S754_nan
|}.

(** The same machine with a runtime that accepts every call. *)
Definition lenient (rt : hip_runtime float) : hip_runtime float := {|
  rt_status := fun _ _ => hipSuccess;
  rt_device_count := rt_device_count rt;
  rt_properties := rt_properties rt;
  rt_driver_version := rt_driver_version rt;
  rt_uninitialized := rt_uninitialized rt
|}.

(** Unwritten cells. *)
Definition nan32 : float := Float S754_nan.
Definition nan64 : double := Double S754_nan.

(** ** The rest of the file: destruction, device listing, call sequences *)

(** The two release entry points, with the buffer the pointer names. *)
Inductive hip_release : Type :=
| hipHostFree (p : buffer)
| hipFree (p : buffer).

Definition released (c : hip_release) : buffer :=
  match c with hipHostFree p | hipFree p => p end.

(** A run of [HIP_CHECK(release)] statements. [status done c] is what the
    runtime answers to [c] after the releases [done]. At the first status
    that is not [hipSuccess] the macro makes the release a second time, for
    [hipGetErrorString], and ends the process; the statements after it are
    not reached. *)
Fixpoint release_each (status : list hip_release -> hip_release -> hipError_t)
    (done todo : list hip_release) : outcome unit * list hip_release :=
  match todo with
  | [] => (Returned tt, done)
  | c :: rest =>
      if hipError_eqb (status done c) hipSuccess
      then release_each status (done ++ [c]) rest
      else (Exited (-1), (done ++ [c]) ++ [c])
  end.

(** [HIPStream<T>::~HIPStream()]. *)
Definition HIPStream_delete (status : list hip_release -> hip_release -> hipError_t)
    : outcome unit * list hip_release :=
  release_each status [] [hipHostFree Sums; hipFree Da; hipFree Db; hipFree Dc].



(** The statuses the runtime gave to the calls [tr], made after [pre]. *)
Section Replay.
Context {T : Type}.

Fixpoint statuses_from (rt : hip_runtime T) (pre tr : list hip_call) : list hipError_t :=
  match tr with
  | [] => []
  | c :: rest => rt_status rt pre c :: statuses_from rt (pre ++ [c]) rest
  end.

Definition succeeded (st : hipError_t) : bool := hipError_eqb st hipSuccess.

(** *** [listDevices] *)

(** What is sent to a stream between two [std::endl]. *)
Inductive item : Type :=
| text (s : string)
| number (z : Z).

Inductive line : Type :=
| cout_line (items : list item)
| cerr_line (items : list item).

(** The line [i << ": " << getDeviceName(i)] for device [i]. *)
Definition device_line (rt : hip_runtime T) (i : Z) : line :=
  cout_line [number i; text ": "; text (name (rt_properties rt i))].

(** The loop [for (int i = 0; i < count; i++)] of [listDevices], over the
    indices still to print. The lines written so far are kept when
    [getDeviceName] ends the process. *)
Fixpoint list_names (rt : hip_runtime T) (idx : list Z)
    (tr : list hip_call) (out : list line)
    : outcome unit * list hip_call * list line :=
  match idx with
  | [] => (Returned tt, tr, out)
  | i :: rest =>
      match getDeviceName rt i tr with
      | (Returned nm, tr') =>
          list_names rt rest tr' (out ++ [cout_line [number i; text ": "; text nm]])
      | (Thrown e, tr') => (Thrown e, tr', out)
      | (Exited c, tr') => (Exited c, tr', out)
      end
  end.

(** [void listDevices(void)]. The lines are those [listDevices] writes
    itself; the diagnostic of a failing [HIP_CHECK] goes with [Exited]. *)
Definition listDevices (rt : hip_runtime T) (tr : list hip_call)
    : outcome unit * list hip_call * list line :=
  match HIP_CHECK (call rt hipGetDeviceCount) tr with
  | (Returned _, tr') =>
      let count := rt_device_count rt in
      if count =? 0 then
        (Returned tt, tr', [cerr_line [text "No devices found."]])
      else
        match list_names rt (seqZ 0 count) tr' [cout_line []; cout_line [text "Devices:"]] with
        | (Returned _, tr'', out) => (Returned tt, tr'', out ++ [cout_line []])
        | r => r
        end
  | (Thrown e, tr') => (Thrown e, tr', [])
  | (Exited c, tr') => (Exited c, tr', [])
  end.

End Replay.

Section Calls.
Context {T : Type} {numeric : Numeric T}.

(** The calls a harness can make on an object. *)
Inductive method : Type :=
| call_init_arrays (initA initB initC : T)
| call_copy
| call_mul
| call_add
| call_triad
| call_nstream
| call_dot.

Definition run_method (startScalar : T) (c : method) (s : HIPStream T)
    : option (HIPStream T) :=
  match c with
  | call_init_arrays x y z => fst <$> init_arrays x y z s
  | call_copy => fst <$> copy s
  | call_mul => fst <$> mul startScalar s
  | call_add => fst <$> add s
  | call_triad => fst <$> triad startScalar s
  | call_nstream => fst <$> nstream startScalar s
  | call_dot => (fun r => snd (fst r)) <$> dot s
  end.

(** Calls in program order; each one blocks until its kernel is done. *)
Fixpoint run_methods (startScalar : T) (cs : list method) (s : HIPStream T)
    : option (HIPStream T) :=
  match cs with
  | [] => Some s
  | c :: rest =>
      match run_method startScalar c s with
      | Some s' => run_methods startScalar rest s'
      | None => None
      end
  end.

(** One round of the four classic kernels on the three values the arrays
    hold when each array is constant: Copy, Scale, Add, Triad. *)
Definition round_values (scalar : T) (v : T * T * T) : T * T * T :=
  let '(a, b, c) := v in
  let c1 := a in
  let b1 := elt_mul scalar c1 in
  let c2 := elt_add a b1 in
  let a1 := elt_add b1 (elt_mul scalar c2) in
  (a1, b1, c2).

(** The sum of a list, from the left, starting at [T{}]. *)
Definition sum_list (l : list T) : T := fold_left elt_add l elt_zero.

(** The sum of the products [a[i] * b[i]], in index order. *)
Definition dot_product (a b : list T) : T := sum_list (zip_with elt_mul a b).

(** Addition that is associative and commutative with [T{}] neutral: exact
    arithmetic. *)
Record exact_addition : Prop := {
  add_assoc : forall x y z : T, elt_add x (elt_add y z) = elt_add (elt_add x y) z;
  add_comm : forall x y : T, elt_add x y = elt_add y x;
  add_zero : forall x : T, elt_add elt_zero x = x
}.

End Calls.

(** The integers as an element type with exact arithmetic. *)
Definition integer_numeric : Numeric Z := {|
  sizeof := 8;
  elt_zero := 0;
  elt_add := Z.add;
  elt_mul := Z.mul
|}.

(** * Properties *)

(** ** Runs of the model *)

(** The model run as it stands, on the smallest valid length. *)
Example dot_runs_on_1024 :
  match dot (uniform_stream 1024 1 (float_lit 1 0) (float_lit 2 0) nan32 nan32) with
  | Some (v, s', l) =>
      v = float_lit 2048 0 /\ sums (mem s') = [float_lit 2048 0] /\
      length l = 2050%nat
  | None => False
  end.
Proof. vm_compute. auto. Qed.

Example nstream_runs_on_1024 :
  match nstream (float_lit 1 0)
          (uniform_stream 1024 1 (float_lit 1 0) (float_lit 1 0) (float_lit 1 0) nan32) with
  | Some (s', l) =>
      d_a (mem s') = replicate 1024 (float_lit 3 0) /\
      d_b (mem s') = replicate 1024 (float_lit 1 0) /\
      take 4 l = [Load Db 0; Load Dc 0; Load Da 0; Store Da 0]
  | None => False
  end.
Proof. vm_compute. auto. Qed.

(** A launch that does not cover the arrays exactly faults or leaves cells
    untouched: with 1000 cells the grid is empty. *)
Example copy_on_1000_cells_copies_nothing :
  match copy {| array_size := 1000; dot_num_blocks := 1;
                mem := {| d_a := replicate 1000 (float_lit 1 0);
                          d_b := replicate 1000 nan32;
                          d_c := replicate 1000 nan32;
                          sums := [nan32] |} |} with
  | Some (s', l) => d_c (mem s') = replicate 1000 nan32 /\ l = []
  | None => False
  end.
Proof. vm_compute. auto. Qed.

Example dot_on_short_arrays_faults :
  dot {| array_size := 2048; dot_num_blocks := 1;
         mem := {| d_a := replicate 1024 (float_lit 1 0);
                   d_b := replicate 1024 (float_lit 2 0);
                   d_c := [];
                   sums := [nan32] |} |} = None.
Proof. vm_compute. reflexivity. Qed.

Section Geometry.
Context {T : Type} {numeric : Numeric T}.
Implicit Types (m : memory T) (s : HIPStream T) (rt : hip_runtime T).

Lemma wrap32_small z : 0 <= z < 2 ^ 32 -> wrap32 z = z.
Proof. intros. unfold wrap32. apply Z.mod_small. lia. Qed.

Lemma to_size_t_small z : 0 <= z < 2 ^ 64 -> to_size_t z = z.
Proof. intros. unfold to_size_t. apply Z.mod_small. lia. Qed.

Lemma valid_size_div N : valid_size N -> N = TBSIZE * Z.quot N TBSIZE /\ 0 < Z.quot N TBSIZE.
Proof.
  unfold valid_size, TBSIZE, INT_MAX. intros [HN Hr].
  pose proof (Z.quot_rem' N 1024) as Hq. rewrite Hr in Hq.
  split; [lia|].
  assert (0 <= Z.quot N 1024) by (apply Z.quot_pos; lia). lia.
Qed.

(** *** Geometry of a launch *)

Lemma global_index_thread G B b t :
  0 <= B -> B * (Z.of_nat b + 1) <= 2 ^ 32 -> Z.of_nat t < B ->
  global_index {| threadIdx_x := Z.of_nat t; blockIdx_x := Z.of_nat b;
                  blockDim_x := B; gridDim_x := G |}
  = B * Z.of_nat b + Z.of_nat t.
Proof.
  intros HB Hb Ht. unfold global_index. simpl.
  rewrite (wrap32_small (B * Z.of_nat b)) by nia.
  apply wrap32_small. nia.
Qed.

Lemma block_threads_index G B b :
  0 <= B -> B * (Z.of_nat b + 1) <= 2 ^ 32 ->
  map global_index (block_threads G B b) = seqZ (B * Z.of_nat b) B.
Proof.
  intros HB Hb. unfold block_threads. rewrite map_map.
  unfold seqZ. apply map_ext_in. intros t Ht.
  apply in_seq in Ht.
  rewrite global_index_thread by lia. lia.
Qed.

Lemma grid_threads_index_from G B k b0 :
  0 <= B -> B * (Z.of_nat b0 + Z.of_nat k) <= 2 ^ 32 ->
  map global_index (flat_map (block_threads G B) (seq b0 k))
  = seqZ (B * Z.of_nat b0) (B * Z.of_nat k).
Proof.
  intros HB. revert b0. induction k as [|k IH]; intros b0 Hk.
  - simpl. rewrite Z.mul_0_r. reflexivity.
  - cbn [seq flat_map]. rewrite map_app, block_threads_index by lia.
    rewrite IH by lia.
    replace (B * Z.of_nat (S k)) with (B + B * Z.of_nat k) by lia.
    rewrite seqZ_app by nia. f_equal. f_equal. lia.
Qed.

Lemma grid_threads_index G B :
  0 <= G -> 0 <= B -> B * G <= 2 ^ 32 ->
  map global_index (grid_threads G B) = seqZ 0 (B * G).
Proof.
  intros HG HB Hle. unfold grid_threads.
  rewrite grid_threads_index_from by lia.
  rewrite Z.mul_0_r, Z2Nat.id by lia. reflexivity.
Qed.

(** *** Cell-wise kernels *)

Lemma in_bounds_lookup (l : list T) i x :
  0 <= i -> l !! Z.to_nat i = Some x -> in_bounds l i = true.
Proof.
  intros Hi Hl. apply lookup_lt_Some in Hl. unfold in_bounds.
  apply andb_true_iff. split; [apply Z.leb_le; lia | apply Z.ltb_lt; lia].
Qed.

Lemma load_Some p i x m :
  0 <= i -> get_buffer m p !! Z.to_nat i = Some x ->
  load p i m = Some (x, m, [Load p i]).
Proof.
  intros Hi Hl. unfold load. rewrite (in_bounds_lookup _ _ _ Hi Hl), Hl. reflexivity.
Qed.

Lemma store_Some p i x v m :
  0 <= i -> get_buffer m p !! Z.to_nat i = Some x ->
  store p i v m = Some (tt, set_buffer m p (<[Z.to_nat i := v]> (get_buffer m p)), [Store p i]).
Proof.
  intros Hi Hl. unfold store. rewrite (in_bounds_lookup _ _ _ Hi Hl). reflexivity.
Qed.

Lemma cell_at_Some m j x y z :
  cell_at m j = Some (x, y, z) <->
  d_a m !! j = Some x /\ d_b m !! j = Some y /\ d_c m !! j = Some z.
Proof.
  unfold cell_at.
  destruct (d_a m !! j), (d_b m !! j), (d_c m !! j); split;
    first [ intros [= -> -> ->]; auto
          | intros ([= ->] & [= ->] & [= ->]); reflexivity
          | discriminate
          | intros (? & ? & ?); discriminate ].
Qed.


Ltac cell_step Hc :=
  apply cell_at_Some in Hc; destruct Hc as (Ha & Hb & Hc);
  unfold kbind;
  repeat first
    [ erewrite load_Some by (try assumption; simpl; eassumption)
    | erewrite store_Some by (try assumption; simpl; eassumption) ];
  simpl; unfold set_cells; simpl;
  rewrite ?(list_insert_id _ _ _ Ha), ?(list_insert_id _ _ _ Hb),
          ?(list_insert_id _ _ _ Hc).

Lemma init_kernel_cellwise (initA initB initC : T) :
  cellwise (T:=T) (init_kernel Da Db Dc initA initB initC)
    (fun _ _ _ => (initA, initB, initC))
    (fun i => [Store Da i; Store Db i; Store Dc i]).
Proof.
  intros th m x y z Hi Hc. unfold init_kernel. cell_step Hc. reflexivity.
Qed.

Lemma copy_kernel_cellwise :
  cellwise (T:=T) (copy_kernel Da Dc) (fun x y _ => (x, y, x))
    (fun i => [Load Da i; Store Dc i]).
Proof.
  intros th m x y z Hi Hc. unfold copy_kernel. cell_step Hc.
  destruct m; reflexivity.
Qed.

Lemma mul_kernel_cellwise (startScalar : T) :
  cellwise (T:=T) (mul_kernel startScalar Db Dc) (fun x _ z => (x, elt_mul startScalar z, z))
    (fun i => [Load Dc i; Store Db i]).
Proof.
  intros th m x y z Hi Hc. unfold mul_kernel. cell_step Hc.
  destruct m; reflexivity.
Qed.

Lemma add_kernel_cellwise :
  cellwise (T:=T) (add_kernel Da Db Dc) (fun x y _ => (x, y, elt_add x y))
    (fun i => [Load Da i; Load Db i; Store Dc i]).
Proof.
  intros th m x y z Hi Hc. unfold add_kernel. cell_step Hc.
  destruct m; reflexivity.
Qed.

Lemma triad_kernel_cellwise (startScalar : T) :
  cellwise (T:=T) (triad_kernel startScalar Da Db Dc)
    (fun _ y z => (elt_add y (elt_mul startScalar z), y, z))
    (fun i => [Load Db i; Load Dc i; Store Da i]).
Proof.
  intros th m x y z Hi Hc. unfold triad_kernel. cell_step Hc.
  destruct m; reflexivity.
Qed.

Lemma nstream_kernel_cellwise (startScalar : T) :
  cellwise (T:=T) (nstream_kernel startScalar Da Db Dc)
    (fun x y z => (elt_add x (elt_add y (elt_mul startScalar z)), y, z))
    (fun i => [Load Db i; Load Dc i; Load Da i; Store Da i]).
Proof.
  intros th m x y z Hi Hc. unfold nstream_kernel. cell_step Hc.
  destruct m; reflexivity.
Qed.

End Geometry.

Section Cellwise.
Context {T : Type} {numeric : Numeric T}.
Implicit Types (m : memory T) (s : HIPStream T) (rt : hip_runtime T).

Lemma map3_lookup (f : T -> T -> T -> T) (a b c : list T) (j : nat) :
  map3 f a b c !! j =
  match a !! j, b !! j, c !! j with
  | Some x, Some y, Some z => Some (f x y z)
  | _, _, _ => None
  end.
Proof.
  revert b c j. induction a as [|x a IH]; intros [|y b] [|z c] [|j]; simpl; auto.
  all: try (destruct (a !! j); [destruct (b !! j)|]; reflexivity).
  all: try (destruct (a !! j); reflexivity).
Qed.

Lemma map3_length (f : T -> T -> T -> T) (a b c : list T) (n : nat) :
  length a = n -> length b = n -> length c = n -> length (map3 f a b c) = n.
Proof.
  revert b c n. induction a as [|x a IH]; intros [|y b] [|z c] n; simpl; try congruence.
  intros <- [= Hb] [= Hc]. f_equal. apply IH; auto.
Qed.

Lemma map3_1 (a b c : list T) :
  length b = length a -> length c = length a -> map3 (fun x _ _ => x) a b c = a.
Proof.
  revert b c. induction a as [|x a IH]; intros [|y b] [|z c]; simpl; try congruence.
  intros [= Hb] [= Hc]. f_equal. auto.
Qed.

Lemma map3_2 (a b c : list T) :
  length a = length b -> length c = length b -> map3 (fun _ y _ => y) a b c = b.
Proof.
  revert b c. induction a as [|x a IH]; intros [|y b] [|z c]; simpl; try congruence.
  intros [= Hb] [= Hc]. f_equal. auto.
Qed.

Lemma map3_3 (a b c : list T) :
  length a = length c -> length b = length c -> map3 (fun _ _ z => z) a b c = c.
Proof.
  revert b c. induction a as [|x a IH]; intros [|y b] [|z c]; simpl; try congruence.
  intros [= Hb] [= Hc]. f_equal. auto.
Qed.

Lemma map3_const (v : T) (a b c : list T) (n : nat) :
  length a = n -> length b = n -> length c = n ->
  map3 (fun _ _ _ => v) a b c = replicate n v.
Proof.
  revert b c n. induction a as [|x a IH]; intros [|y b] [|z c] n; simpl; try congruence.
  - intros <-. reflexivity.
  - intros <- [= Hb] [= Hc]. simpl. f_equal. auto.
Qed.

Lemma map3_replicate (f : T -> T -> T -> T) (x y z : T) (n : nat) :
  map3 f (replicate n x) (replicate n y) (replicate n z) = replicate n (f x y z).
Proof. induction n; simpl; congruence. Qed.

Lemma map3_replicate_bc (h : T -> T -> T) (a : list T) (y z : T) (n : nat) :
  length a = n ->
  map3 (fun _ y z => h y z) a (replicate n y) (replicate n z) = replicate n (h y z).
Proof.
  revert n. induction a as [|x a IH]; intros n <-; simpl; [reflexivity|].
  f_equal. auto.
Qed.

(** The image of a memory under a cell function. *)
Lemma set_cells_length m j v n :
  length (d_a m) = n -> length (d_b m) = n -> length (d_c m) = n ->
  length (d_a (set_cells m j v)) = n /\ length (d_b (set_cells m j v)) = n /\
  length (d_c (set_cells m j v)) = n.
Proof. intros. simpl. rewrite !length_insert. auto. Qed.

Lemma set_cells_cell_at m j v j' :
  is_Some (cell_at m j) ->
  cell_at (set_cells m j v) j' = if decide (j' = j) then Some v else cell_at m j'.
Proof.
  intros [[[x y] z] Hc]. apply cell_at_Some in Hc. destruct Hc as (Ha & Hb & Hc).
  apply lookup_lt_Some in Ha, Hb, Hc.
  unfold cell_at. simpl. destruct (decide (j' = j)) as [->|Hne].
  - rewrite !list_lookup_insert_eq by assumption. destruct v as [[? ?] ?]; reflexivity.
  - rewrite !list_lookup_insert_ne by congruence. reflexivity.
Qed.

Lemma run_threads_cellwise k g acc :
  cellwise (T:=T) k g acc ->
  forall ths j0 m n,
    map global_index ths = seqZ (Z.of_nat j0) (Z.of_nat (length ths)) ->
    length (d_a m) = n -> length (d_b m) = n -> length (d_c m) = n ->
    (j0 + length ths <= n)%nat ->
    exists m',
      run_threads k ths m
      = Some (tt, m', flat_map acc (seqZ (Z.of_nat j0) (Z.of_nat (length ths)))) /\
      length (d_a m') = n /\ length (d_b m') = n /\ length (d_c m') = n /\
      sums m' = sums m /\
      forall j x y z,
        cell_at m j = Some (x, y, z) ->
        cell_at m' j = Some (if decide (j0 <= j < j0 + length ths)%nat
                           then g x y z else (x, y, z)).
Proof.
  intros Hk ths. induction ths as [|th ths IH]; intros j0 m n Hidx Ha Hb Hc Hle.
  - exists m. simpl. repeat split; auto.
    intros j x y z Hj. rewrite Hj. destruct (decide _); [lia|reflexivity].
  - cbn [length] in Hidx, Hle. rewrite seqZ_cons in Hidx by lia.
    cbn [map] in Hidx. injection Hidx as Hth Hrest.
    replace (Z.pred (Z.of_nat (S (length ths)))) with (Z.of_nat (length ths)) in Hrest by lia.
    replace (Z.succ (Z.of_nat j0)) with (Z.of_nat (S j0)) in Hrest by lia.
    assert (Hlt : (j0 < n)%nat) by lia.
    destruct (lookup_lt_is_Some_2 (d_a m) j0) as [x0 Hx0]; [lia|].
    destruct (lookup_lt_is_Some_2 (d_b m) j0) as [y0 Hy0]; [lia|].
    destruct (lookup_lt_is_Some_2 (d_c m) j0) as [z0 Hz0]; [lia|].
    assert (Hc0 : cell_at m j0 = Some (x0, y0, z0)) by (apply cell_at_Some; auto).
    pose proof (Hk th m x0 y0 z0) as Hstep.
    rewrite Hth, Nat2Z.id in Hstep. specialize (Hstep ltac:(lia) Hc0).
    destruct (set_cells_length m j0 (g x0 y0 z0) n Ha Hb Hc) as (Ha1 & Hb1 & Hc1).
    destruct (IH (S j0) (set_cells m j0 (g x0 y0 z0)) n Hrest Ha1 Hb1 Hc1 ltac:(lia))
      as (m' & Hrun & Ha' & Hb' & Hc' & Hs' & Hcells).
    exists m'. split; [|repeat split; auto].
    + cbn [run_threads]. unfold kbind at 1. rewrite Hstep, Hrun.
      rewrite (seqZ_cons _ (Z.of_nat (S (length ths)))) by lia.
      cbn [flat_map]. do 3 f_equal.
      replace (Z.pred (Z.of_nat (S (length ths)))) with (Z.of_nat (length ths)) by lia.
      replace (Z.succ (Z.of_nat j0)) with (Z.of_nat (S j0)) by lia. reflexivity.
    + intros j x y z Hj. cbn [length].
      pose proof (set_cells_cell_at m j0 (g x0 y0 z0) j ltac:(rewrite Hc0; eauto)) as Hnew.
      destruct (decide (j = j0)) as [->|Hne].
      * rewrite Hj in Hc0. injection Hc0 as -> -> ->.
        destruct (g x0 y0 z0) as [[x1 y1] z1].
        rewrite (Hcells _ _ _ _ Hnew).
        repeat destruct (decide _); try lia; reflexivity.
      * rewrite Hj in Hnew. rewrite (Hcells _ _ _ _ Hnew).
        repeat destruct (decide _); try lia; reflexivity.
Qed.

(** A launch over arrays of [N] cell_at, for a cell-wise kernel. *)
Lemma launch_cellwise k g acc N m :
  cellwise (T:=T) k g acc ->
  valid_size N ->
  Z.of_nat (length (d_a m)) = N -> Z.of_nat (length (d_b m)) = N ->
  Z.of_nat (length (d_c m)) = N ->
  launch (Z.quot N TBSIZE) TBSIZE k m
  = Some (tt,
          {| d_a := map3 (fun x y z => (g x y z).1.1) (d_a m) (d_b m) (d_c m);
             d_b := map3 (fun x y z => (g x y z).1.2) (d_a m) (d_b m) (d_c m);
             d_c := map3 (fun x y z => (g x y z).2) (d_a m) (d_b m) (d_c m);
             sums := sums m |},
          flat_map acc (seqZ 0 N)).
Proof.
  intros Hk HN Ha Hb Hc.
  destruct (valid_size_div N HN) as [Hdiv Hpos].
  destruct HN as [HN _]. unfold INT_MAX, TBSIZE in *.
  unfold launch.
  rewrite (wrap32_small (Z.quot N 1024)), (wrap32_small 1024) by lia.
  set (G := Z.quot N 1024) in *.
  pose proof (grid_threads_index G 1024 ltac:(lia) ltac:(lia) ltac:(lia)) as Hidx.
  assert (Hlen : Z.of_nat (length (grid_threads G 1024)) = N).
  { rewrite <- (length_map global_index), Hidx, length_seqZ. lia. }
  rewrite <- Hdiv, <- Hlen in Hidx.
  destruct (run_threads_cellwise k g acc Hk (grid_threads G 1024) 0 m (Z.to_nat N)
              Hidx ltac:(lia) ltac:(lia) ltac:(lia) ltac:(lia))
    as (m' & Hrun & Ha' & Hb' & Hc' & Hs' & Hcells).
  rewrite Hrun. change (Z.of_nat 0) with 0. rewrite Hlen.
  assert (Hpt : forall j, cell_at m' j =
                  match cell_at m j with Some (x, y, z) => Some (g x y z) | None => None end).
  { intros j. destruct (cell_at m j) as [[[x y] z]|] eqn:Hj.
    - rewrite (Hcells _ _ _ _ Hj).
      apply cell_at_Some in Hj. destruct Hj as (Hj & _ & _). apply lookup_lt_Some in Hj.
      destruct (decide _); [reflexivity|lia].
    - unfold cell_at in *.
      destruct (d_a m !! j) eqn:E1.
      + apply lookup_lt_Some in E1.
        destruct (lookup_lt_is_Some_2 (d_b m) j ltac:(lia)) as [? E2].
        destruct (lookup_lt_is_Some_2 (d_c m) j ltac:(lia)) as [? E3].
        rewrite E2, E3 in Hj. discriminate.
      + apply lookup_ge_None in E1.
        rewrite (lookup_ge_None_2 (d_a m')) by lia. reflexivity. }
  assert (Hcell : forall j,
            d_a m' !! j = map3 (fun x y z => (g x y z).1.1) (d_a m) (d_b m) (d_c m) !! j /\
            d_b m' !! j = map3 (fun x y z => (g x y z).1.2) (d_a m) (d_b m) (d_c m) !! j /\
            d_c m' !! j = map3 (fun x y z => (g x y z).2) (d_a m) (d_b m) (d_c m) !! j).
  { intros j. specialize (Hpt j). rewrite !map3_lookup. unfold cell_at in Hpt.
    destruct (d_a m !! j) as [x|] eqn:E1, (d_b m !! j) as [y|] eqn:E2,
             (d_c m !! j) as [z|] eqn:E3;
      try (rewrite !lookup_ge_None_2; [auto|..];
           apply lookup_ge_None in E1 || apply lookup_ge_None in E2
           || apply lookup_ge_None in E3; lia).
    destruct (g x y z) as [[x1 y1] z1]. simpl.
    destruct (d_a m' !! j), (d_b m' !! j), (d_c m' !! j); try discriminate.
    injection Hpt as -> -> ->. auto. }
  do 3 f_equal. destruct m' as [a' b' c' s']. simpl in *. subst s'.
  f_equal; apply list_eq; intros j; apply (Hcell j).
Qed.

End Cellwise.

Section Methods.
Context {T : Type} {numeric : Numeric T}.
Implicit Types (m : memory T) (s : HIPStream T) (rt : hip_runtime T).

Lemma map3_map_c (h : T -> T) (a b c : list T) :
  length a = length c -> length b = length c ->
  map3 (fun _ _ z => h z) a b c = map h c.
Proof.
  revert b c. induction a as [|x a IH]; intros [|y b] [|z c]; simpl; try congruence.
  intros [= Ha] [= Hb]. f_equal. auto.
Qed.

Lemma map3_zip_ab (h : T -> T -> T) (a b c : list T) :
  length a = length c -> length b = length c ->
  map3 (fun x y _ => h x y) a b c = zip_with h a b.
Proof.
  revert b c. induction a as [|x a IH]; intros [|y b] [|z c]; simpl; try congruence.
  intros [= Ha] [= Hb]. f_equal. auto.
Qed.

Lemma map3_zip_bc (h : T -> T -> T) (a b c : list T) :
  length a = length c -> length b = length c ->
  map3 (fun _ y z => h y z) a b c = zip_with h b c.
Proof.
  revert b c. induction a as [|x a IH]; intros [|y b] [|z c]; simpl; try congruence.
  intros [= Ha] [= Hb]. f_equal. auto.
Qed.

(** *** What each element-wise method does to a well-formed object *)

Ltac method_spec Hcw :=
  match goal with
  | Hwf : well_formed ?s |- _ =>
      destruct Hwf as [Hsz Ha Hb Hc Hnb Hsm];
      unfold run_on;
      erewrite (launch_cellwise _ _ _ (array_size s) (mem s) Hcw Hsz Ha Hb Hc);
      cbn [fst snd];
      assert (Hab : length (d_a (mem s)) = length (d_b (mem s))) by lia;
      assert (Hac : length (d_a (mem s)) = length (d_c (mem s))) by lia
  end.

Lemma init_arrays_spec (initA initB initC : T) s :
  well_formed s ->
  init_arrays initA initB initC s
  = Some (with_memory s
            {| d_a := replicate (Z.to_nat (array_size s)) initA;
               d_b := replicate (Z.to_nat (array_size s)) initB;
               d_c := replicate (Z.to_nat (array_size s)) initC;
               sums := sums (mem s) |},
          flat_map (fun i => [Store Da i; Store Db i; Store Dc i])
                   (seqZ 0 (array_size s))).
Proof.
  intros Hwf. unfold init_arrays. method_spec (init_kernel_cellwise initA initB initC).
  rewrite !(map3_const _ _ _ _ (Z.to_nat (array_size s))) by lia. reflexivity.
Qed.

Lemma copy_spec s :
  well_formed s ->
  copy s
  = Some (with_memory s
            {| d_a := d_a (mem s); d_b := d_b (mem s);
               d_c := d_a (mem s); sums := sums (mem s) |},
          flat_map (fun i => [Load Da i; Store Dc i]) (seqZ 0 (array_size s))).
Proof.
  intros Hwf. unfold copy. method_spec (copy_kernel_cellwise (T:=T)).
  rewrite map3_1, map3_2 by lia. reflexivity.
Qed.

Lemma mul_spec (startScalar : T) s :
  well_formed s ->
  mul startScalar s
  = Some (with_memory s
            {| d_a := d_a (mem s);
               d_b := map (elt_mul startScalar) (d_c (mem s));
               d_c := d_c (mem s); sums := sums (mem s) |},
          flat_map (fun i => [Load Dc i; Store Db i]) (seqZ 0 (array_size s))).
Proof.
  intros Hwf. unfold mul. method_spec (mul_kernel_cellwise startScalar).
  rewrite map3_1, map3_3, (map3_map_c (elt_mul startScalar)) by lia. reflexivity.
Qed.

Lemma add_spec s :
  well_formed s ->
  add s
  = Some (with_memory s
            {| d_a := d_a (mem s); d_b := d_b (mem s);
               d_c := zip_with elt_add (d_a (mem s)) (d_b (mem s));
               sums := sums (mem s) |},
          flat_map (fun i => [Load Da i; Load Db i; Store Dc i])
                   (seqZ 0 (array_size s))).
Proof.
  intros Hwf. unfold add. method_spec (add_kernel_cellwise (T:=T)).
  rewrite map3_1, map3_2, (map3_zip_ab elt_add) by lia. reflexivity.
Qed.

Lemma triad_spec (startScalar : T) s :
  well_formed s ->
  triad startScalar s
  = Some (with_memory s
            {| d_a := zip_with (fun y z => elt_add y (elt_mul startScalar z))
                        (d_b (mem s)) (d_c (mem s));
               d_b := d_b (mem s); d_c := d_c (mem s); sums := sums (mem s) |},
          flat_map (fun i => [Load Db i; Load Dc i; Store Da i])
                   (seqZ 0 (array_size s))).
Proof.
  intros Hwf. unfold triad. method_spec (triad_kernel_cellwise startScalar).
  rewrite map3_2, map3_3,
    (map3_zip_bc (fun y z => elt_add y (elt_mul startScalar z))) by lia.
  reflexivity.
Qed.

Lemma nstream_spec (startScalar : T) s :
  well_formed s ->
  nstream startScalar s
  = Some (with_memory s
            {| d_a := map3 (fun x y z => elt_add x (elt_add y (elt_mul startScalar z)))
                        (d_a (mem s)) (d_b (mem s)) (d_c (mem s));
               d_b := d_b (mem s); d_c := d_c (mem s); sums := sums (mem s) |},
          flat_map (fun i => [Load Db i; Load Dc i; Load Da i; Store Da i])
                   (seqZ 0 (array_size s))).
Proof.
  intros Hwf. unfold nstream. method_spec (nstream_kernel_cellwise startScalar).
  rewrite map3_2, map3_3 by lia. reflexivity.
Qed.

(** Well-formedness is kept by any change of the three arrays that keeps
    their lengths. *)
Lemma well_formed_with_memory s a b c :
  well_formed s ->
  length a = length (d_a (mem s)) -> length b = length (d_b (mem s)) ->
  length c = length (d_c (mem s)) ->
  well_formed (with_memory s {| d_a := a; d_b := b; d_c := c; sums := sums (mem s) |}).
Proof.
  intros [Hsz Ha Hb Hc Hnb Hsm] La Lb Lc.
  constructor; simpl; auto; lia.
Qed.

End Methods.

Section DotKernel.
Context {T : Type} {numeric : Numeric T}.
Implicit Types (m : memory T) (s : HIPStream T) (rt : hip_runtime T).

Lemma dot_lane_loop_spec N S th m :
  0 < N <= INT_MAX ->
  Z.of_nat (length (d_a m)) = N -> Z.of_nat (length (d_b m)) = N ->
  wrap32 (blockDim_x th * gridDim_x th) = S -> 0 < S ->
  forall fuel i acc,
    0 <= i < 2 ^ 63 -> Z.max 0 (N - i) < Z.of_nat fuel ->
    dot_lane_loop fuel Da Db N th i acc m
    = Some (lane_sum (d_a m) (d_b m) (strided fuel i S N) acc, m,
            lane_log (strided fuel i S N)).
Proof.
  intros HN Ha Hb HS HSpos. unfold INT_MAX in HN.
  assert (HS32 : S < 2 ^ 32).
  { subst S. unfold wrap32. apply Z.mod_pos_bound. lia. }
  induction fuel as [|fuel IH]; intros i acc Hi Hfuel; [lia|].
  cbn [dot_lane_loop strided]. rewrite HS, (to_size_t_small N) by lia.
  destruct (i <? N) eqn:Hlt; [|reflexivity].
  apply Z.ltb_lt in Hlt.
  destruct (lookup_lt_is_Some_2 (d_a m) (Z.to_nat i) ltac:(lia)) as [x Hx].
  destruct (lookup_lt_is_Some_2 (d_b m) (Z.to_nat i) ltac:(lia)) as [y Hy].
  unfold kbind.
  rewrite (load_Some Da i x m) by (simpl; auto; lia).
  rewrite (load_Some Db i y m) by (simpl; auto; lia).
  rewrite (to_size_t_small (i + S)) by lia.
  rewrite IH by lia.
  cbn [lane_sum fold_left lane_log flat_map app]. unfold prod_at. rewrite Hx, Hy.
  reflexivity.
Qed.

Lemma dot_lanes_spec N G B blk m fuel :
  0 < N <= INT_MAX ->
  Z.of_nat (length (d_a m)) = N -> Z.of_nat (length (d_b m)) = N ->
  0 < B -> 0 < G -> B * G < 2 ^ 32 -> Z.of_nat blk < G ->
  N < Z.of_nat fuel ->
  forall ts, Forall (fun t => Z.of_nat t < B) ts ->
    dot_lanes fuel Da Db N
      (map (fun t => {| threadIdx_x := Z.of_nat t; blockIdx_x := Z.of_nat blk;
                        blockDim_x := B; gridDim_x := G |}) ts) m
    = Some (map (fun t => lane_sum (d_a m) (d_b m) (lane_indices fuel N G B blk t) elt_zero) ts,
            m,
            flat_map (fun t => lane_log (lane_indices fuel N G B blk t)) ts).
Proof.
  intros HN Ha Hb HB HG HBG Hblk Hfuel ts.
  induction ts as [|t ts IH]; intros Hts; [reflexivity|].
  apply Forall_cons in Hts. destruct Hts as [Ht Hts].
  cbn [map dot_lanes flat_map]. unfold kbind at 1, dot_lane. cbn [threadIdx_x blockIdx_x blockDim_x].
  rewrite (wrap32_small (B * Z.of_nat blk)) by nia.
  rewrite (to_size_t_small (B * Z.of_nat blk + Z.of_nat t)) by nia.
  rewrite (dot_lane_loop_spec N (B * G) _ m HN Ha Hb); cycle 1.
  - simpl. apply wrap32_small. nia.
  - nia.
  - nia.
  - nia.
  - unfold kbind. rewrite (IH Hts). unfold kret, lane_indices.
    rewrite app_nil_r. reflexivity.
Qed.

Lemma reduce_lanes_total offset (tb : list T) :
  forall row k,
    (forall t, (k <= t < k + length row)%nat -> Z.of_nat t < offset ->
               Z.of_nat t + offset < Z.of_nat (length tb)) ->
    0 <= offset ->
    exists r, reduce_lanes offset tb k row = Some r /\ length r = length row.
Proof.
  induction row as [|x row IH]; intros k Hk Ho.
  - exists []. auto.
  - cbn [reduce_lanes]. destruct (IH (S k)) as (r & -> & Hr).
    { intros t Ht. apply Hk. cbn [length]. lia. }
    { lia. }
    destruct (Z.of_nat k <? offset) eqn:Hlt.
    + apply Z.ltb_lt in Hlt.
      destruct (lookup_lt_is_Some_2 tb (Z.to_nat (Z.of_nat k + offset))) as [y ->].
      { specialize (Hk k ltac:(cbn [length]; lia) Hlt). lia. }
      eexists. split; [reflexivity|]. simpl. lia.
    + eexists. split; [reflexivity|]. simpl. lia.
Qed.

Lemma tree_reduce_total :
  forall fuel offset (tb : list T),
    0 <= offset < Z.of_nat fuel -> 2 * offset <= Z.of_nat (length tb) ->
    exists r, tree_reduce fuel offset tb = Some r /\ length r = length tb.
Proof.
  induction fuel as [|fuel IH]; intros offset tb Ho Hlen; [lia|].
  cbn [tree_reduce]. destruct (0 <? offset) eqn:Hpos.
  - apply Z.ltb_lt in Hpos.
    destruct (reduce_lanes_total offset tb tb 0%nat) as (r & -> & Hr); [intros; lia|lia|].
    assert (0 <= offset / 2 < offset) by (split; [apply Z.div_pos; lia | apply Z.div_lt; lia]).
    destruct (IH (offset / 2) r) as (r' & -> & Hr'); [lia|lia|].
    exists r'. split; [reflexivity|congruence].
  - exists tb. auto.
Qed.

Lemma block_threads_map G B blk :
  block_threads G B blk
  = map (fun t => {| threadIdx_x := Z.of_nat t; blockIdx_x := Z.of_nat blk;
                     blockDim_x := B; gridDim_x := G |}) (seq 0 (Z.to_nat B)).
Proof. reflexivity. Qed.

Lemma dot_block_spec N G blk m fuel :
  0 < N <= INT_MAX ->
  Z.of_nat (length (d_a m)) = N -> Z.of_nat (length (d_b m)) = N ->
  0 < G < 2 ^ 22 -> Z.of_nat (length (sums m)) = G ->
  Z.of_nat blk < G -> N < Z.of_nat fuel ->
  dot_block fuel Da Db Sums N G TBSIZE blk m
  = Some (tt,
          set_buffer m Sums
            (<[blk := block_total fuel (d_a m) (d_b m) N G TBSIZE blk]> (sums m)),
          block_log fuel N G TBSIZE blk).
Proof.
  intros HN Ha Hb HG Hs Hblk Hfuel. unfold dot_block.
  change (TBSIZE <=? TBSIZE) with true. cbv iota.
  rewrite block_threads_map. unfold kbind at 1.
  rewrite (dot_lanes_spec N G TBSIZE blk m fuel HN Ha Hb); unfold TBSIZE; try lia.
  2:{ apply Forall_forall. intros t Ht%list_elem_of_In%in_seq. lia. }
  unfold block_total, block_fold, block_log, TBSIZE.
  set (tb := map _ (seq 0 (Z.to_nat 1024))).
  destruct (tree_reduce_total (S (Z.to_nat 1024)) (1024 / 2) tb) as (r & Hr & Hlen).
  { change (1024 / 2) with 512. lia. }
  { subst tb. rewrite length_map, length_seq. change (1024 / 2) with 512. lia. }
  unfold kbind, lift. rewrite Hr.
  assert (Hrl : length r = 1024%nat).
  { rewrite Hlen. subst tb. rewrite length_map, length_seq. reflexivity. }
  destruct r as [|v r]; [discriminate|]. cbn [lookup list_lookup].
  destruct (lookup_lt_is_Some_2 (sums m) blk ltac:(lia)) as [old Hold].
  rewrite (store_Some Sums (Z.of_nat blk) old v m) by (simpl; rewrite ?Nat2Z.id; auto; lia).
  rewrite Nat2Z.id, app_nil_l. reflexivity.
Qed.

End DotKernel.

Section DotMethod.
Context {T : Type} {numeric : Numeric T}.
Implicit Types (m : memory T) (s : HIPStream T) (rt : hip_runtime T).

Lemma run_blocks_spec N G fuel (a b : list T) :
  0 < N <= INT_MAX ->
  Z.of_nat (length a) = N -> Z.of_nat (length b) = N ->
  0 < G < 2 ^ 22 -> N < Z.of_nat fuel ->
  forall len k0 m,
    d_a m = a -> d_b m = b -> Z.of_nat (length (sums m)) = G ->
    Z.of_nat k0 + Z.of_nat len <= G ->
    exists l,
      run_blocks (dot_block fuel Da Db Sums N G TBSIZE) (seq k0 len) m
      = Some (tt, set_buffer m Sums l, flat_map (block_log fuel N G TBSIZE) (seq k0 len)) /\
      length l = length (sums m) /\
      forall j, l !! j = if decide (k0 <= j < k0 + len)%nat
                         then Some (block_total fuel a b N G TBSIZE j)
                         else sums m !! j.
Proof.
  intros HN Ha Hb HG Hfuel.
  induction len as [|len IH]; intros k0 m Hma Hmb Hs Hle.
  - exists (sums m). simpl. split; [destruct m; reflexivity|]. split; [reflexivity|].
    intros j. destruct (decide _); [lia|reflexivity].
  - cbn [seq run_blocks flat_map]. unfold kbind at 1.
    rewrite (dot_block_spec N G k0 m fuel HN) by (rewrite ?Hma, ?Hmb; lia).
    rewrite Hma, Hmb.
    set (m1 := set_buffer m Sums _).
    destruct (IH (S k0) m1) as (l & Hrun & Hlen & Hl).
    { subst m1. destruct m; assumption. }
    { subst m1. destruct m; assumption. }
    { subst m1. simpl. rewrite length_insert. assumption. }
    { lia. }
    rewrite Hrun. exists l. split; [|split].
    + subst m1. destruct m; reflexivity.
    + rewrite Hlen. subst m1. simpl. apply length_insert.
    + intros j. rewrite Hl. subst m1. simpl.
      destruct (decide (j = k0)) as [->|Hne].
      * rewrite list_lookup_insert_eq by lia.
        repeat destruct (decide _); try lia; reflexivity.
      * rewrite list_lookup_insert_ne by congruence.
        repeat destruct (decide _); try lia; reflexivity.
Qed.

Lemma sum_partials_spec :
  forall len k acc m,
    (k + len <= length (sums m))%nat ->
    sum_partials (seq k len) acc m
    = Some (fold_left elt_add (take len (drop k (sums m))) acc, m,
            map (fun i => Load Sums (Z.of_nat i)) (seq k len)).
Proof.
  induction len as [|len IH]; intros k acc m Hle; [reflexivity|].
  cbn [seq sum_partials map]. unfold kbind.
  destruct (lookup_lt_is_Some_2 (sums m) k ltac:(lia)) as [x Hx].
  rewrite (load_Some Sums (Z.of_nat k) x m) by (simpl; rewrite ?Nat2Z.id; auto; lia).
  rewrite IH by lia.
  rewrite (drop_S _ _ _ Hx). reflexivity.
Qed.

Theorem dot_spec s :
  well_formed s ->
  dot s = Some (dot_value s,
                with_memory s {| d_a := d_a (mem s); d_b := d_b (mem s);
                                 d_c := d_c (mem s); sums := dot_partials s |},
                dot_log s).
Proof.
  intros [[HN Hrem] Ha Hb Hc Hnb Hsm]. unfold dot, dot_kernel.
  rewrite (wrap32_small (dot_num_blocks s)), (wrap32_small TBSIZE) by (unfold TBSIZE; lia).
  unfold kbind.
  destruct (run_blocks_spec (array_size s) (dot_num_blocks s) (dot_fuel s)
              (d_a (mem s)) (d_b (mem s)) HN Ha Hb Hnb
              ltac:(unfold dot_fuel; lia)
              (Z.to_nat (dot_num_blocks s)) 0%nat (mem s) eq_refl eq_refl Hsm ltac:(lia))
    as (l & Hrun & Hlen & Hl).
  rewrite Hrun.
  assert (Hpart : l = dot_partials s).
  { apply list_eq. intros j. rewrite Hl. unfold dot_partials.
    rewrite list_lookup_fmap.
    destruct (decide _) as [Hj|Hj].
    - rewrite lookup_seq_lt by lia. reflexivity.
    - rewrite lookup_seq_ge by lia. simpl. apply lookup_ge_None. lia. }
  rewrite sum_partials_spec by (simpl; lia).
  cbn [sums set_buffer]. rewrite drop_0, take_ge by lia.
  subst l. destruct (mem s); reflexivity.
Qed.

End DotMethod.

Section GridStride.
Context {T : Type} {numeric : Numeric T}.
Implicit Types (m : memory T) (s : HIPStream T) (rt : hip_runtime T).

(** *** The grid-stride pattern *)

Lemma strided_bounds fuel S N :
  0 < S -> forall i x, x ∈ strided fuel i S N -> i <= x < N /\ (x - i) mod S = 0.
Proof.
  intros HS. induction fuel as [|fuel IH]; intros i x Hx; simpl in Hx.
  - inversion Hx.
  - destruct (i <? N) eqn:Hlt; [|inversion Hx]. apply Z.ltb_lt in Hlt.
    apply elem_of_cons in Hx. destruct Hx as [->|Hx].
    + rewrite Z.sub_diag. split; [lia|reflexivity].
    + apply IH in Hx. destruct Hx as [Hr Hm]. split; [lia|].
      replace (x - i) with (x - (i + S) + 1 * S) by lia.
      rewrite Z.mod_add by lia. assumption.
Qed.

Lemma strided_complete S N :
  0 < S -> forall fuel i x,
    Z.max 0 (N - i) < Z.of_nat fuel ->
    i <= x < N -> (x - i) mod S = 0 -> x ∈ strided fuel i S N.
Proof.
  intros HS. induction fuel as [|fuel IH]; intros i x Hfuel Hr Hm; [lia|].
  simpl. destruct (i <? N) eqn:Hlt; [|apply Z.ltb_ge in Hlt; lia].
  destruct (decide (x = i)) as [->|Hne]; [left|right].
  apply Z.mod_divide in Hm; [|lia]. destruct Hm as [q Hq].
  assert (1 <= q) by nia.
  apply IH; [lia|nia|].
  replace (x - (i + S)) with ((q - 1) * S) by lia.
  apply Z.mod_mul. lia.
Qed.

Lemma strided_NoDup fuel S N : 0 < S -> forall i, NoDup (strided fuel i S N).
Proof.
  intros HS. induction fuel as [|fuel IH]; intros i; simpl; [constructor|].
  destruct (i <? N); [|constructor].
  constructor; [|apply IH].
  intros Hin. apply (strided_bounds _ _ _ HS) in Hin. lia.
Qed.

Lemma same_residue S y g1 g2 :
  0 < S -> 0 <= g1 < S -> 0 <= g2 < S ->
  (y - g1) mod S = 0 -> (y - g2) mod S = 0 -> g1 = g2.
Proof.
  intros HS H1 H2 M1 M2.
  apply Z.mod_divide in M1, M2; try lia.
  destruct M1 as [q1 E1], M2 as [q2 E2].
  assert (q1 = q2) by nia. nia.
Qed.

Lemma elem_of_grid_indices fuel N G B x :
  x ∈ grid_indices fuel N G B <->
  exists blk t, (blk < Z.to_nat G)%nat /\ (t < Z.to_nat B)%nat /\
                x ∈ lane_indices fuel N G B blk t.
Proof.
  unfold grid_indices.
  change (flat_map ?f ?l) with (l ≫= f). rewrite list_elem_of_bind. split.
  - intros (blk & Hx & Hblk). change (flat_map ?f ?l) with (l ≫= f) in Hx.
    apply list_elem_of_bind in Hx. destruct Hx as (t & Hx & Ht).
    apply elem_of_seq in Hblk, Ht. exists blk, t. repeat split; auto; lia.
  - intros (blk & t & Hblk & Ht & Hx). exists blk. split; [|apply elem_of_seq; lia].
    change (flat_map ?f ?l) with (l ≫= f). apply list_elem_of_bind.
    exists t. split; [assumption|apply elem_of_seq; lia].
Qed.

Lemma grid_indices_NoDup fuel N G B :
  0 < B -> 0 < G -> NoDup (grid_indices fuel N G B).
Proof.
  intros HB HG. assert (HS : 0 < B * G) by nia.
  unfold grid_indices. change (flat_map ?f ?l) with (l ≫= f).
  assert (Hres : forall blk t y, (t < Z.to_nat B)%nat -> (blk < Z.to_nat G)%nat ->
            y ∈ lane_indices fuel N G B blk t ->
            0 <= B * Z.of_nat blk + Z.of_nat t < B * G /\
            (y - (B * Z.of_nat blk + Z.of_nat t)) mod (B * G) = 0).
  { intros blk t y Ht Hblk Hy. apply (strided_bounds _ _ _ HS) in Hy. split; [nia|tauto]. }
  apply NoDup_bind.
  - intros b1 b2 y Hb1%elem_of_seq Hb2%elem_of_seq H1 H2.
    change (flat_map ?f ?l) with (l ≫= f) in H1, H2.
    apply list_elem_of_bind in H1, H2.
    destruct H1 as (t1 & H1 & Ht1%elem_of_seq), H2 as (t2 & H2 & Ht2%elem_of_seq).
    apply Hres in H1, H2; try lia.
    destruct H1 as [R1 M1], H2 as [R2 M2].
    pose proof (same_residue _ _ _ _ HS R1 R2 M1 M2). nia.
  - intros blk Hblk%elem_of_seq. change (flat_map ?f ?l) with (l ≫= f).
    apply NoDup_bind.
    + intros t1 t2 y Ht1%elem_of_seq Ht2%elem_of_seq H1 H2.
      apply Hres in H1, H2; try lia.
      destruct H1 as [R1 M1], H2 as [R2 M2].
      pose proof (same_residue _ _ _ _ HS R1 R2 M1 M2). lia.
    + intros t _. apply strided_NoDup. assumption.
    + apply NoDup_seq.
  - apply NoDup_seq.
Qed.

(** Every index below [N] is visited by exactly one lane, exactly once. *)
Lemma grid_indices_perm fuel N G B :
  0 < B -> 0 < G -> 0 <= N < Z.of_nat fuel ->
  grid_indices fuel N G B ≡ₚ seqZ 0 N.
Proof.
  intros HB HG HN. assert (HS : 0 < B * G) by nia.
  apply NoDup_Permutation.
  - apply grid_indices_NoDup; assumption.
  - apply NoDup_seqZ.
  - intros x. rewrite elem_of_grid_indices, elem_of_seqZ. split.
    + intros (blk & t & Hblk & Ht & Hx).
      apply (strided_bounds _ _ _ HS) in Hx. lia.
    + intros Hx.
      pose proof (Z.mod_pos_bound x (B * G) HS) as Hg.
      pose proof (Z.div_mod x (B * G) ltac:(lia)) as Hdm.
      set (g := x mod (B * G)) in *.
      pose proof (Z.mod_pos_bound g B HB) as Ht.
      pose proof (Z.div_mod g B ltac:(lia)) as Hgdm.
      assert (0 <= g / B) by (apply Z.div_pos; lia).
      assert (g / B < G) by (apply Z.div_lt_upper_bound; lia).
      exists (Z.to_nat (g / B)), (Z.to_nat (g mod B)).
      split; [lia|]. split; [lia|].
      unfold lane_indices. rewrite !Z2Nat.id by lia. rewrite <- Hgdm.
      assert (0 <= x / (B * G)) by (apply Z.div_pos; lia).
      apply strided_complete; [assumption|lia|nia|].
      replace (x - g) with ((x / (B * G)) * (B * G)) by lia.
      apply Z.mod_mul. lia.
Qed.

(** *** Reading the access list *)

Lemma loads_of_app p l1 l2 : loads_of p (l1 ++ l2) = loads_of p l1 ++ loads_of p l2.
Proof. apply flat_map_app. Qed.

Lemma stores_of_app p l1 l2 : stores_of p (l1 ++ l2) = stores_of p l1 ++ stores_of p l2.
Proof. apply flat_map_app. Qed.

Lemma loads_of_flat_map {A} p (f : A -> list access) (l : list A) :
  loads_of p (flat_map f l) = flat_map (fun x => loads_of p (f x)) l.
Proof.
  induction l as [|x l IH]; [reflexivity|].
  cbn [flat_map]. rewrite loads_of_app, IH. reflexivity.
Qed.

Lemma stores_of_flat_map {A} p (f : A -> list access) (l : list A) :
  stores_of p (flat_map f l) = flat_map (fun x => stores_of p (f x)) l.
Proof.
  induction l as [|x l IH]; [reflexivity|].
  cbn [flat_map]. rewrite stores_of_app, IH. reflexivity.
Qed.

Lemma flat_map_singleton {A} (l : list A) : flat_map (fun x => [x]) l = l.
Proof. induction l as [|x l IH]; simpl; congruence. Qed.

Lemma flat_map_nil {A B} (l : list A) : flat_map (fun _ => @nil B) l = [].
Proof. induction l as [|x l IH]; simpl; congruence. Qed.

Lemma loads_of_lane_log_a js : loads_of Da (lane_log js) = js.
Proof. unfold lane_log. rewrite loads_of_flat_map. simpl. apply flat_map_singleton. Qed.

Lemma loads_of_lane_log_b js : loads_of Db (lane_log js) = js.
Proof. unfold lane_log. rewrite loads_of_flat_map. simpl. apply flat_map_singleton. Qed.

Lemma loads_of_sums_only p (l : list nat) :
  p <> Sums -> loads_of p (map (fun i => Load Sums (Z.of_nat i)) l) = [].
Proof.
  intros Hp. induction l as [|x l IH]; [reflexivity|].
  simpl. destruct p; try congruence; exact IH.
Qed.

Lemma dot_log_loads_a s : loads_of Da (dot_log s)
  = grid_indices (dot_fuel s) (array_size s) (dot_num_blocks s) TBSIZE.
Proof.
  unfold dot_log, grid_indices.
  rewrite loads_of_app, loads_of_sums_only, app_nil_r, loads_of_flat_map by discriminate.
  apply flat_map_ext. intros blk. unfold block_log.
  rewrite loads_of_app, loads_of_flat_map.
  change (loads_of Da [Store Sums (Z.of_nat blk)]) with (@nil Z). rewrite app_nil_r.
  apply flat_map_ext. intros t. apply loads_of_lane_log_a.
Qed.

Lemma dot_log_loads_b s : loads_of Db (dot_log s)
  = grid_indices (dot_fuel s) (array_size s) (dot_num_blocks s) TBSIZE.
Proof.
  unfold dot_log, grid_indices.
  rewrite loads_of_app, loads_of_sums_only, app_nil_r, loads_of_flat_map by discriminate.
  apply flat_map_ext. intros blk. unfold block_log.
  rewrite loads_of_app, loads_of_flat_map.
  change (loads_of Db [Store Sums (Z.of_nat blk)]) with (@nil Z). rewrite app_nil_r.
  apply flat_map_ext. intros t. apply loads_of_lane_log_b.
Qed.

Lemma dot_reads_each_once s :
  well_formed s ->
  loads_of Da (dot_log s) ≡ₚ seqZ 0 (array_size s) /\
  loads_of Db (dot_log s) ≡ₚ seqZ 0 (array_size s).
Proof.
  intros [[HN Hrem] Ha Hb Hc Hnb Hsm].
  rewrite dot_log_loads_a, dot_log_loads_b.
  split; apply grid_indices_perm; unfold TBSIZE, dot_fuel; lia.
Qed.

End GridStride.

Section UniformInput.
Context {T : Type} {numeric : Numeric T}.
Implicit Types (m : memory T) (s : HIPStream T) (rt : hip_runtime T).

Lemma lane_sum_replicate (x y : T) (n : nat) (js : list Z) (acc : T) :
  Forall (fun j => 0 <= j < Z.of_nat n) js ->
  lane_sum (replicate n x) (replicate n y) js acc = count_sum (elt_mul x y) js acc.
Proof.
  revert acc. induction js as [|j js IH]; intros acc Hjs; [reflexivity|].
  apply Forall_cons in Hjs. destruct Hjs as [Hj Hjs]. cbn [lane_sum count_sum fold_left].
  unfold prod_at. rewrite !lookup_replicate_2 by lia. apply IH. assumption.
Qed.

Lemma lane_indices_range fuel N G B blk t :
  0 < B -> 0 < G ->
  Forall (fun j => 0 <= j < N) (lane_indices fuel N G B blk t).
Proof.
  intros HB HG. apply Forall_forall. intros j Hj.
  apply strided_bounds in Hj; [|nia]. nia.
Qed.

Lemma block_total_uniform (x y : T) fuel N G B blk :
  0 < B -> 0 < G -> 0 <= N ->
  block_total fuel (replicate (Z.to_nat N) x) (replicate (Z.to_nat N) y) N G B blk
  = uniform_block (elt_mul x y) fuel N G B blk.
Proof.
  intros HB HG HN. unfold block_total, uniform_block.
  apply (f_equal (block_fold B)). apply map_ext.
  intros t. cbv beta. apply lane_sum_replicate.
  eapply Forall_impl; [apply lane_indices_range; assumption|].
  cbv beta. intros j. lia.
Qed.

Lemma dot_value_uniform (x y : T) s :
  well_formed s ->
  d_a (mem s) = replicate (Z.to_nat (array_size s)) x ->
  d_b (mem s) = replicate (Z.to_nat (array_size s)) y ->
  dot_value s
  = uniform_dot (elt_mul x y) (dot_fuel s) (array_size s) (dot_num_blocks s) TBSIZE.
Proof.
  intros [[HN Hrem] Ha Hb Hc Hnb Hsm] Ea Eb.
  unfold dot_value, dot_partials, uniform_dot. rewrite Ea, Eb.
  apply (f_equal (fun l => fold_left elt_add l elt_zero)).
  apply map_ext. intros blk. apply block_total_uniform; unfold TBSIZE; lia.
Qed.

Lemma strided_one fuel i S N :
  (2 <= fuel)%nat -> i < N -> N <= i + S -> strided fuel i S N = [i].
Proof.
  intros Hf Hi HS. destruct fuel as [|[|fuel]]; try lia.
  cbn [strided]. apply Z.ltb_lt in Hi. rewrite Hi.
  apply Z.ltb_ge in HS. rewrite HS. reflexivity.
Qed.

Lemma strided_none fuel i S N : N <= i -> strided fuel i S N = [].
Proof.
  intros Hi. destruct fuel; [reflexivity|]. cbn [strided].
  apply Z.ltb_ge in Hi. rewrite Hi. reflexivity.
Qed.

Lemma map_const_seq {A} (f : nat -> A) (c : A) k n :
  (forall t, (k <= t < k + n)%nat -> f t = c) -> map f (seq k n) = replicate n c.
Proof.
  revert k. induction n as [|n IH]; intros k Hf; [reflexivity|].
  cbn [seq map replicate]. rewrite Hf by lia. f_equal. apply IH. intros; apply Hf; lia.
Qed.

(** A grid with at least as many blocks as the arrays have blocks of
    [B] cells: every lane sees at most one element. *)
Lemma uniform_block_full (v : T) fuel B q G blk :
  (2 <= fuel)%nat -> 0 < B -> 0 < q <= G -> Z.of_nat blk < q ->
  uniform_block v fuel (B * q) G B blk
  = block_fold B (replicate (Z.to_nat B) (elt_add elt_zero v)).
Proof.
  intros Hf HB Hq Hblk. unfold uniform_block.
  apply (f_equal (block_fold B)).
  apply map_const_seq. intros t Ht. unfold lane_indices.
  rewrite strided_one by nia. reflexivity.
Qed.

Lemma uniform_block_empty (v : T) fuel B q G blk :
  0 < B -> 0 < q <= G -> q <= Z.of_nat blk ->
  uniform_block v fuel (B * q) G B blk
  = block_fold B (replicate (Z.to_nat B) elt_zero).
Proof.
  intros HB Hq Hblk. unfold uniform_block.
  apply (f_equal (block_fold B)).
  apply map_const_seq. intros t Ht. unfold lane_indices.
  rewrite strided_none by nia. reflexivity.
Qed.

Lemma uniform_dot_wide (v : T) fuel B q G :
  (2 <= fuel)%nat -> 0 < B -> 0 < q <= G ->
  uniform_dot v fuel (B * q) G B
  = fold_left elt_add
      (replicate (Z.to_nat (G - q)) (block_fold B (replicate (Z.to_nat B) elt_zero)))
      (fold_left elt_add
         (replicate (Z.to_nat q)
            (block_fold B (replicate (Z.to_nat B) (elt_add elt_zero v))))
         elt_zero).
Proof.
  intros Hf HB Hq. unfold uniform_dot.
  replace (Z.to_nat G) with (Z.to_nat q + Z.to_nat (G - q))%nat by lia.
  rewrite seq_app, map_app, fold_left_app. cbn [Nat.add].
  rewrite (map_const_seq _ (block_fold B (replicate (Z.to_nat B) (elt_add elt_zero v)))
             0 (Z.to_nat q)).
  2:{ intros t Ht. apply uniform_block_full; lia. }
  rewrite (map_const_seq _ (block_fold B (replicate (Z.to_nat B) elt_zero))
             (Z.to_nat q) (Z.to_nat (G - q))).
  2:{ intros t Ht. apply uniform_block_empty; lia. }
  reflexivity.
Qed.

Lemma fold_left_absorb (total z : T) k :
  elt_add total z = total -> fold_left elt_add (replicate k z) total = total.
Proof. intros Hz. induction k as [|k IH]; simpl; [reflexivity|]. rewrite Hz. exact IH. Qed.

(** The tree reduction of 1024 equal cells doubles the value ten times. *)
Lemma block_fold_replicate (c : T) :
  block_fold 1024 (replicate (Z.to_nat 1024) c) = Nat.iter 10 (fun x => elt_add x x) c.
Proof. vm_compute. reflexivity. Qed.

Lemma count_sum_length (v : T) (js : list Z) (acc : T) :
  count_sum v js acc = Nat.iter (length js) (fun a => elt_add a v) acc.
Proof.
  revert acc. induction js as [|j js IH]; intros acc; [reflexivity|].
  cbn [count_sum fold_left length]. rewrite Nat.iter_succ_r. apply IH.
Qed.

(** When the length is a multiple [B * q] of the block width, all lanes of a
    block visit equally many cells: as many as there are blocks [blk],
    [blk + G], [blk + 2 G], ... below [q]. *)
Lemma strided_length_block B G q t :
  0 < B -> 0 <= t < B ->
  forall fuel b,
    length (strided fuel (B * b + t) (B * G) (B * q)) = length (strided fuel b G q).
Proof.
  intros HB Ht. induction fuel as [|fuel IH]; intros b; [reflexivity|].
  cbn [strided].
  replace (B * b + t <? B * q) with (b <? q).
  2:{ destruct (b <? q) eqn:E; symmetry;
        [apply Z.ltb_lt in E; apply Z.ltb_lt; nia|apply Z.ltb_ge in E; apply Z.ltb_ge; nia]. }
  destruct (b <? q); [|reflexivity].
  cbn [length]. f_equal.
  replace (B * b + t + B * G) with (B * (b + G) + t) by lia. apply IH.
Qed.

Lemma uniform_dot_blocks (v : T) fuel q G :
  uniform_dot v fuel (1024 * q) G 1024
  = fold_left elt_add
      (map (fun blk =>
              Nat.iter 10 (fun x => elt_add x x)
                (Nat.iter (length (strided fuel (Z.of_nat blk) G q))
                   (fun a => elt_add a v) elt_zero))
           (seq 0 (Z.to_nat G)))
      elt_zero.
Proof.
  unfold uniform_dot. apply (f_equal (fun l => fold_left elt_add l elt_zero)).
  apply map_ext. intros blk. unfold uniform_block.
  rewrite <- block_fold_replicate. apply (f_equal (block_fold 1024)).
  apply map_const_seq. intros t Ht.
  rewrite count_sum_length. unfold lane_indices.
  rewrite strided_length_block by lia. reflexivity.
Qed.

End UniformInput.

Lemma uniform_dot_float G :
  0 < G -> uniform_dot (elt_mul (float_lit 1 0) (float_lit 2 0)) (S (Z.to_nat 8192)) 8192 G 1024
           = float_lit 16384 0.
Proof.
  intros HG.
  assert (Hcases : G = 1 \/ G = 2 \/ G = 3 \/ G = 4 \/ G = 5 \/ G = 6 \/ G = 7 \/ 8 <= G) by lia.
  change 8192 with (1024 * 8) at 2.
  destruct Hcases as [->|[->|[->|[->|[->|[->|[->|Hwide]]]]]]];
    [rewrite uniform_dot_blocks; vm_compute; reflexivity ..|].
  rewrite (uniform_dot_wide _ _ 1024 8 G) by lia.
  rewrite !block_fold_replicate.
  rewrite fold_left_absorb; vm_compute; reflexivity.
Qed.

Lemma uniform_dot_double G :
  0 < G -> uniform_dot (elt_mul (double_lit 1 0) (double_lit 2 0)) (S (Z.to_nat 8192)) 8192 G 1024
           = double_lit 16384 0.
Proof.
  intros HG.
  assert (Hcases : G = 1 \/ G = 2 \/ G = 3 \/ G = 4 \/ G = 5 \/ G = 6 \/ G = 7 \/ 8 <= G) by lia.
  change 8192 with (1024 * 8) at 2.
  destruct Hcases as [->|[->|[->|[->|[->|[->|[->|Hwide]]]]]]];
    [rewrite uniform_dot_blocks; vm_compute; reflexivity ..|].
  rewrite (uniform_dot_wide _ _ 1024 8 G) by lia.
  rewrite !block_fold_replicate.
  rewrite fold_left_absorb; vm_compute; reflexivity.
Qed.

Section Construction.
Context {T : Type} {numeric : Numeric T}.
Implicit Types (m : memory T) (s : HIPStream T) (rt : hip_runtime T).
Variable dot_elements_per_lane : Z.

Ltac host_step :=
  cbv beta iota zeta
      delta [hbind HIP_CHECK call getDeviceName getDeviceDriver hret throw exit fst snd];
  cbn [app].

Lemma HIPStream_new_bad_size rt N idx tr :
  Z.rem N TBSIZE <> 0 ->
  HIPStream_new dot_elements_per_lane rt N idx tr
  = (Thrown (runtime_error msg_array_size), tr).
Proof.
  intros Hrem. unfold HIPStream_new.
  apply Z.eqb_neq in Hrem. rewrite Hrem. reflexivity.
Qed.

Lemma HIPStream_new_index_too_large rt N idx :
  Z.rem N TBSIZE = 0 -> rt_device_count rt <= idx ->
  rt_status rt [] hipGetDeviceCount = hipSuccess ->
  HIPStream_new dot_elements_per_lane rt N idx []
  = (Thrown (runtime_error msg_device_index), [hipGetDeviceCount]).
Proof.
  intros Hrem Hidx Hok. unfold HIPStream_new. rewrite Z.geb_leb.
  apply Z.eqb_eq in Hrem. rewrite Hrem. cbn [negb].
  host_step. rewrite Hok. cbn.
  apply Z.leb_le in Hidx. rewrite Hidx. reflexivity.
Qed.

Lemma capacity_no_wrap N :
  0 <= N <= INT_MAX -> 0 < sizeof (T:=T) <= 2 ^ 16 ->
  to_size_t (to_size_t (3 * N) * sizeof) = 3 * N * sizeof.
Proof.
  unfold INT_MAX. intros HN Hs.
  rewrite (to_size_t_small (3 * N)) by lia. apply to_size_t_small.
  assert (3 * N * sizeof <= 3 * 2147483647 * sizeof) by nia.
  assert (0 <= 3 * N * sizeof) by nia.
  lia.
Qed.

(** Whatever the runtime answers, a failed capacity check is reached before
    any [hipMalloc]. *)
Lemma HIPStream_new_exhausted rt N idx :
  valid_size N -> 0 < sizeof (T:=T) <= 2 ^ 16 ->
  idx < rt_device_count rt ->
  totalGlobalMem (rt_properties rt 0) < 3 * N * sizeof ->
  let r := HIPStream_new dot_elements_per_lane rt N idx [] in
  (forall s, fst r <> Returned s) /\
  Forall (fun c => is_device_alloc c = false) (snd r) /\
  let before :=
    [hipGetDeviceCount; hipSetDevice idx; hipGetDeviceProperties idx;
     hipSetDevice idx; hipDriverGetVersion;
     hipHostMalloc (to_size_t (sizeof * blocks_for dot_elements_per_lane N));
     hipGetDeviceProperties 0] in
  (Forall (fun st => st = hipSuccess) (statuses_from rt [] before) ->
   r = (Thrown (runtime_error msg_memory), before)).
Proof.
  intros [HN Hrem] Hs Hidx Hmem. unfold HIPStream_new. rewrite Z.geb_leb.
  apply Z.eqb_eq in Hrem. rewrite Hrem. cbn [negb].
  apply Z.leb_gt in Hidx.
  rewrite capacity_no_wrap by lia. apply Z.ltb_lt in Hmem.
  fold (blocks_for dot_elements_per_lane N).
  set (hb := to_size_t (sizeof * blocks_for dot_elements_per_lane N)).
  cbv zeta. split; [|split].
  - intros s. host_step.
    repeat (match goal with
            | |- context [hipError_eqb (rt_status rt ?tr ?c) hipSuccess] =>
                destruct (hipError_eqb (rt_status rt tr c) hipSuccess)
            end; cbn; rewrite ?Hidx, ?Hmem; try discriminate).
  - host_step.
    repeat (match goal with
            | |- context [hipError_eqb (rt_status rt ?tr ?c) hipSuccess] =>
                destruct (hipError_eqb (rt_status rt tr c) hipSuccess)
            end; cbn; rewrite ?Hidx, ?Hmem; try (repeat constructor)).
  - intros Hok. cbn [statuses_from app] in Hok.
    repeat match type of Hok with
           | Forall _ (_ :: _) =>
               let E := fresh "E" in
               apply Forall_cons in Hok; destruct Hok as [E Hok]
           end.
    host_step.
    repeat (rewrite ?E, ?E0, ?E1, ?E2, ?E3, ?E4, ?E5, ?Hidx, ?Hmem;
            cbv beta iota zeta delta [hipError_eqb]; cbn [app]).
    reflexivity.
Qed.

End Construction.

Section ReadBack.
Context {T : Type} {numeric : Numeric T}.
Implicit Types (m : memory T) (s : HIPStream T) (rt : hip_runtime T).
Variable dot_elements_per_lane : Z.

(** *** Read-back *)

Lemma hipMemcpy_to_host_full (dst src : list T) :
  length dst = length src -> hipMemcpy_to_host dst src = Some src.
Proof.
  intros Hlen. unfold hipMemcpy_to_host.
  rewrite (proj2 (Nat.leb_le _ _)) by lia.
  rewrite take_ge by lia. reflexivity.
Qed.

Lemma copy_cells_spec (src : list T) :
  forall len k dst,
    length dst = length src -> (k + len <= length src)%nat ->
    exists r, copy_cells (seq k len) dst src = Some r /\
              length r = length src /\
              forall j, r !! j = if decide (k <= j < k + len)%nat then src !! j else dst !! j.
Proof.
  induction len as [|len IH]; intros k dst Hlen Hle.
  - exists dst. split; [reflexivity|]. split; [assumption|].
    intros j. destruct (decide _); [lia|reflexivity].
  - cbn [seq copy_cells].
    destruct (lookup_lt_is_Some_2 src k ltac:(lia)) as [v Hv]. rewrite Hv.
    rewrite (proj2 (Nat.ltb_lt _ _)) by lia.
    destruct (IH (S k) (<[k := v]> dst)) as (r & Hr & Hrl & Hrj).
    { rewrite length_insert. assumption. }
    { lia. }
    exists r. split; [assumption|]. split; [assumption|].
    intros j. rewrite Hrj. destruct (decide (j = k)) as [->|Hne].
    + rewrite list_lookup_insert_eq by lia.
      repeat destruct (decide _); try lia; congruence.
    + rewrite list_lookup_insert_ne by congruence.
      repeat destruct (decide _); try lia; reflexivity.
Qed.

Lemma copy_cells_full (dst src : list T) n :
  n = length src -> length dst = length src ->
  copy_cells (seq 0 n) dst src = Some src.
Proof.
  intros -> Hlen.
  destruct (copy_cells_spec src (length src) 0%nat dst Hlen ltac:(lia)) as (r & Hr & Hrl & Hrj).
  rewrite Hr. f_equal. apply list_eq. intros j. rewrite Hrj.
  destruct (decide _) as [|Hj]; [reflexivity|].
  rewrite !lookup_ge_None_2 by lia. reflexivity.
Qed.

Lemma read_arrays_spec mode s (a b c : list T) :
  well_formed s ->
  Z.of_nat (length a) = array_size s -> Z.of_nat (length b) = array_size s ->
  Z.of_nat (length c) = array_size s ->
  read_arrays mode s a b c = Some (d_a (mem s), d_b (mem s), d_c (mem s)).
Proof.
  intros [Hsz Ha Hb Hc Hnb Hsm] La Lb Lc. unfold read_arrays. destruct mode.
  - rewrite !hipMemcpy_to_host_full by lia. reflexivity.
  - rewrite !copy_cells_full by lia. reflexivity.
Qed.

(** *** Access lists of the element-wise kernels *)

Lemma Forall_flat_map_seqZ (P : access -> Prop) (acc : Z -> list access) N :
  (forall i, 0 <= i < N -> Forall P (acc i)) -> Forall P (flat_map acc (seqZ 0 N)).
Proof.
  intros H. apply Forall_forall. intros x Hx.
  change (flat_map ?f ?l) with (l ≫= f) in Hx.
  apply list_elem_of_bind in Hx. destruct Hx as (i & Hx & Hi).
  apply elem_of_seqZ in Hi. specialize (H i ltac:(lia)).
  rewrite Forall_forall in H. auto.
Qed.

(** *** A constructed object is well-formed *)

Lemma blocks_for_bounds N :
  0 < N <= INT_MAX -> 0 < dot_elements_per_lane ->
  0 < blocks_for dot_elements_per_lane N < 2 ^ 22.
Proof.
  unfold INT_MAX, blocks_for, TBSIZE. intros HN He.
  rewrite Z.quot_div_nonneg by lia.
  split.
  - apply Z.div_str_pos. lia.
  - apply Z.div_lt_upper_bound; lia.
Qed.

Lemma fresh_buffer_length rt k n :
  0 <= n -> 0 < sizeof (T:=T) <= 2 ^ 16 -> n <= INT_MAX ->
  Z.of_nat (length (fresh_buffer rt k (to_size_t (sizeof * n)))) = n.
Proof.
  unfold INT_MAX. intros Hn Hs Hmax. unfold fresh_buffer.
  rewrite length_map, length_seq.
  rewrite to_size_t_small by nia.
  rewrite Z.mul_comm, Z.div_mul by lia. lia.
Qed.

Lemma HIPStream_new_success rt N idx :
  valid_size N -> 0 < sizeof (T:=T) <= 2 ^ 16 ->
  idx < rt_device_count rt -> runtime_ok rt ->
  3 * N * sizeof <= totalGlobalMem (rt_properties rt 0) ->
  0 < dot_elements_per_lane ->
  exists s tr,
    HIPStream_new dot_elements_per_lane rt N idx [] = (Returned s, tr) /\
    array_size s = N /\
    dot_num_blocks s = blocks_for dot_elements_per_lane N /\
    well_formed s.
Proof.
  intros [HN Hrem] Hs Hidx Hok Hmem He. unfold HIPStream_new. rewrite Z.geb_leb.
  pose proof Hrem as Hrem'.
  apply Z.eqb_eq in Hrem'. rewrite Hrem'. cbn [negb].
  apply Z.leb_gt in Hidx.
  rewrite capacity_no_wrap by lia. apply Z.ltb_ge in Hmem.
  fold (blocks_for dot_elements_per_lane N).
  pose proof (blocks_for_bounds N HN He) as Hnb.
  cbv beta iota zeta
      delta [hbind HIP_CHECK call getDeviceName getDeviceDriver hret throw exit fst snd];
  cbn [app].
  repeat (rewrite ?Hok, ?Hidx, ?Hmem; cbv beta iota zeta delta [hipError_eqb]; cbn [app]).
  eexists _, _. split; [reflexivity|]. split; [reflexivity|]. split; [reflexivity|].
  unfold INT_MAX in *.
  constructor; cbn [array_size dot_num_blocks mem d_a d_b d_c sums].
  - split; [unfold INT_MAX; lia|assumption].
  - apply fresh_buffer_length; unfold INT_MAX; lia.
  - apply fresh_buffer_length; unfold INT_MAX; lia.
  - apply fresh_buffer_length; unfold INT_MAX; lia.
  - assumption.
  - apply fresh_buffer_length; unfold INT_MAX; lia.
Qed.

End ReadBack.

Section Recurrences.
Context {T : Type} {numeric : Numeric T}.
Implicit Types (m : memory T) (s : HIPStream T) (rt : hip_runtime T).

Lemma uniform_stream_well_formed N nb (x y z w : T) :
  valid_size N -> 0 < nb < 2 ^ 22 -> well_formed (uniform_stream N nb x y z w).
Proof.
  intros HN Hnb. pose proof HN as [HN' _].
  constructor; cbn [uniform_stream array_size dot_num_blocks mem d_a d_b d_c sums];
    rewrite ?length_replicate; auto; lia.
Qed.

Lemma nstream_twice_generic (one three five : T) s :
  elt_add one (elt_add one (elt_mul one one)) = three ->
  elt_add three (elt_add one (elt_mul one one)) = five ->
  well_formed s -> nstream_twice one three five s.
Proof.
  intros H3 H5 Hwf. unfold nstream_twice.
  pose proof (init_arrays_spec one one one s Hwf) as Hinit.
  set (n := Z.to_nat (array_size s)) in *.
  set (s1 := with_memory s _) in Hinit.
  assert (Hwf1 : well_formed s1).
  { destruct Hwf as [[HN Hrem] Ha Hb Hc Hnb Hsm].
    constructor; cbn; rewrite ?length_replicate; auto; try (subst n; lia). split; auto. }
  pose proof (nstream_spec one s1 Hwf1) as Hn1.
  cbn [s1 with_memory mem d_a d_b d_c sums array_size] in Hn1.
  rewrite map3_replicate, H3 in Hn1.
  set (s2 := with_memory s1 _) in Hn1.
  assert (Hwf2 : well_formed s2).
  { destruct Hwf as [[HN Hrem] Ha Hb Hc Hnb Hsm].
    constructor; cbn; rewrite ?length_replicate; auto; try (subst n; lia). split; auto. }
  pose proof (nstream_spec one s2 Hwf2) as Hn2.
  cbn [s2 s1 with_memory mem d_a d_b d_c sums array_size] in Hn2.
  rewrite map3_replicate, H5 in Hn2.
  eexists _, _, _, _, _, _.
  split; [exact Hinit|]. split; [exact Hn1|]. split; [exact Hn2|].
  cbn. auto 10.
Qed.

Lemma zip_with_replicate (h : T -> T -> T) (y z : T) n :
  zip_with h (replicate n y) (replicate n z) = replicate n (h y z).
Proof. induction n; simpl; congruence. Qed.

Lemma triad_stable_generic (scalar a0 b0 c0 result : T) s :
  elt_add b0 (elt_mul scalar c0) = result ->
  well_formed s -> triad_stable scalar a0 b0 c0 result s.
Proof.
  intros Hres Hwf. unfold triad_stable.
  pose proof (init_arrays_spec a0 b0 c0 s Hwf) as Hinit.
  set (n := Z.to_nat (array_size s)) in *.
  set (s1 := with_memory s _) in Hinit.
  assert (Hwf1 : well_formed s1).
  { destruct Hwf as [[HN Hrem] Ha Hb Hc Hnb Hsm].
    constructor; cbn; rewrite ?length_replicate; auto; try (subst n; lia). split; auto. }
  pose proof (triad_spec scalar s1 Hwf1) as Ht1.
  cbn [s1 with_memory mem d_a d_b d_c sums array_size] in Ht1.
  rewrite zip_with_replicate, Hres in Ht1.
  set (s2 := with_memory s1 _) in Ht1.
  assert (Hwf2 : well_formed s2).
  { destruct Hwf as [[HN Hrem] Ha Hb Hc Hnb Hsm].
    constructor; cbn; rewrite ?length_replicate; auto; try (subst n; lia). split; auto. }
  pose proof (triad_spec scalar s2 Hwf2) as Ht2.
  cbn [s2 s1 with_memory mem d_a d_b d_c sums array_size] in Ht2.
  rewrite zip_with_replicate, Hres in Ht2.
  assert (Hfix : exists l, triad scalar s2 = Some (s2, l)) by (eexists; exact Ht2).
  eexists _, _, _, _.
  split; [exact Hinit|]. split; [exact Ht1|].
  split; [reflexivity|]. split; [reflexivity|]. split; [reflexivity|]. split.
  - destruct Hfix as [l Hl]. exists s2, l. cbn. auto.
  - intros R HR. destruct R as [|R]; [lia|]. cbn [repeat_call]. rewrite Ht1.
    clear HR. induction R as [|R IH]; [reflexivity|].
    cbn [repeat_call]. destruct Hfix as [l ->]. exact IH.
Qed.

End Recurrences.

Section AccessLists.
Context {T : Type} {numeric : Numeric T}.
Implicit Types (m : memory T) (s : HIPStream T) (rt : hip_runtime T).

(** The access list of a cell-wise launch, buffer by buffer. *)
Lemma cellwise_log_ok (acc : Z -> list access) N nb :
  (forall i, 0 <= i < N -> Forall (access_ok N nb) (acc i)) ->
  Forall (access_ok N nb) (flat_map acc (seqZ 0 N)).
Proof. apply Forall_flat_map_seqZ. Qed.

Lemma stores_of_each (p : buffer) (acc : Z -> list access) (l : list Z) :
  (forall i, stores_of p (acc i) = [i]) -> stores_of p (flat_map acc l) = l.
Proof.
  intros H. rewrite stores_of_flat_map.
  rewrite (flat_map_ext _ (fun x => [x])) by assumption. apply flat_map_singleton.
Qed.

Lemma stores_of_none (p : buffer) (acc : Z -> list access) (l : list Z) :
  (forall i, stores_of p (acc i) = []) -> stores_of p (flat_map acc l) = [].
Proof.
  intros H. rewrite stores_of_flat_map.
  rewrite (flat_map_ext _ (fun _ => [])) by assumption. apply flat_map_nil.
Qed.

Lemma loads_of_each (p : buffer) (acc : Z -> list access) (l : list Z) :
  (forall i, loads_of p (acc i) = [i]) -> loads_of p (flat_map acc l) = l.
Proof.
  intros H. rewrite loads_of_flat_map.
  rewrite (flat_map_ext _ (fun x => [x])) by assumption. apply flat_map_singleton.
Qed.

Lemma writes_only_flat_map (ps : list buffer) (acc : Z -> list access) (l : list Z) :
  (forall i, writes_only ps (acc i)) -> writes_only ps (flat_map acc l).
Proof. intros H q Hq. apply stores_of_none. intros i. apply H. assumption. Qed.

(** *** The access list of [dot] *)

Lemma lane_log_ok N nb js :
  Forall (fun j => 0 <= j < N) js -> Forall (access_ok N nb) (lane_log js).
Proof.
  intros H. induction H as [|j js Hj _ IH]; [constructor|].
  cbn [lane_log flat_map app].
  constructor; [exact Hj|]. constructor; [exact Hj|]. exact IH.
Qed.

Lemma stores_of_lane_log p js : stores_of p (lane_log js) = [].
Proof. unfold lane_log. apply stores_of_none. reflexivity. Qed.

Lemma block_log_ok fuel N G B blk :
  0 < B -> 0 < G -> Z.of_nat blk < G ->
  Forall (access_ok N G) (block_log fuel N G B blk).
Proof.
  intros HB HG Hblk. unfold block_log. apply Forall_app. split.
  - apply Forall_forall. intros x Hx.
    change (flat_map ?f ?l) with (l ≫= f) in Hx.
    apply list_elem_of_bind in Hx. destruct Hx as (t & Hx & _).
    pose proof (lane_log_ok N G _ (lane_indices_range fuel N G B blk t HB HG)) as Hok.
    rewrite Forall_forall in Hok. auto.
  - repeat constructor; simpl; lia.
Qed.

Lemma dot_log_ok s :
  well_formed s ->
  Forall (access_ok (array_size s) (dot_num_blocks s)) (dot_log s).
Proof.
  intros [[HN Hrem] Ha Hb Hc Hnb Hsm]. unfold dot_log. apply Forall_app. split.
  - apply Forall_forall. intros x Hx.
    change (flat_map ?f ?l) with (l ≫= f) in Hx.
    apply list_elem_of_bind in Hx. destruct Hx as (blk & Hx & Hblk%elem_of_seq).
    pose proof (block_log_ok (dot_fuel s) (array_size s) (dot_num_blocks s) TBSIZE blk
                  ltac:(unfold TBSIZE; lia) ltac:(lia) ltac:(lia)) as Hok.
    rewrite Forall_forall in Hok. auto.
  - apply Forall_forall. intros x Hx%list_elem_of_fmap.
    destruct Hx as (i & -> & Hi%elem_of_seq). simpl. lia.
Qed.

Lemma dot_log_writes_only s : writes_only [Sums] (dot_log s).
Proof.
  intros q Hq. unfold dot_log. rewrite stores_of_app.
  assert (Hne : q <> Sums) by (intros ->; apply Hq; left; reflexivity).
  replace (stores_of q (map _ _)) with (@nil Z).
  2:{ symmetry. generalize (seq 0 (Z.to_nat (dot_num_blocks s))).
      intros l. induction l as [|x l IH]; [reflexivity|exact IH]. }
  rewrite app_nil_r, stores_of_flat_map.
  rewrite (flat_map_ext _ (fun _ => [])); [apply flat_map_nil|].
  intros blk. unfold block_log. rewrite stores_of_app, stores_of_flat_map.
  rewrite (flat_map_ext _ (fun _ => [])) by (intros; apply stores_of_lane_log).
  rewrite flat_map_nil. destruct q; try reflexivity. congruence.
Qed.

(** The launch of an element-wise kernel: [array_size / TBSIZE] groups of
    [TBSIZE] lanes, one lane per index below [array_size]. *)
Lemma elementwise_launch_geometry N :
  valid_size N ->
  map global_index (grid_threads (wrap32 (Z.quot N TBSIZE)) (wrap32 TBSIZE)) = seqZ 0 N /\
  Z.of_nat (length (grid_threads (wrap32 (Z.quot N TBSIZE)) (wrap32 TBSIZE))) = N.
Proof.
  intros HN. destruct (valid_size_div N HN) as [Hdiv Hpos].
  destruct HN as [HN _]. unfold INT_MAX, TBSIZE in *.
  rewrite (wrap32_small (Z.quot N 1024)), (wrap32_small 1024) by lia.
  pose proof (grid_threads_index (Z.quot N 1024) 1024 ltac:(lia) ltac:(lia) ltac:(lia)) as Hidx.
  rewrite <- Hdiv in Hidx. split; [assumption|].
  rewrite <- (length_map global_index), Hidx, length_seqZ. lia.
Qed.

End AccessLists.

Section KernelClaims.
Context {T : Type} {numeric : Numeric T}.
Implicit Types (m : memory T) (s : HIPStream T) (rt : hip_runtime T).

Ltac frame_tac :=
  eexists _, _; split; [reflexivity|]; split; [|split; [|split; reflexivity]];
  [ intros p Hp; destruct p; try reflexivity; exfalso; apply Hp; simpl; tauto
  | apply writes_only_flat_map; intros i q Hq; destruct q; try reflexivity;
    exfalso; apply Hq; simpl; tauto ].

(** C6. Under a well-formed object every element-wise kernel returns and
    changes (and stores to) its target array only: Copy [c], Scale [b], Add
    [c], Triad and Extended-Triad [a]; Initialize the three arrays; none of
    them touches [sums]. Dot-product returns and leaves [a], [b] and [c]
    unchanged, storing to [sums] only. *)
Theorem C6_kernels_change_their_target_only (startScalar initA initB initC : T) s :
  well_formed s ->
  frame_ok s [Da; Db; Dc] (init_arrays initA initB initC s) /\
  frame_ok s [Dc] (copy s) /\
  frame_ok s [Db] (mul startScalar s) /\
  frame_ok s [Dc] (add s) /\
  frame_ok s [Da] (triad startScalar s) /\
  frame_ok s [Da] (nstream startScalar s) /\
  frame_ok s [Sums] (drop_value (dot s)).
Proof.
  intros Hwf. unfold frame_ok.
  rewrite (init_arrays_spec _ _ _ s Hwf), (copy_spec s Hwf), (mul_spec _ s Hwf),
    (add_spec s Hwf), (triad_spec _ s Hwf), (nstream_spec _ s Hwf), (dot_spec s Hwf).
  cbn [drop_value].
  repeat split; try frame_tac.
  eexists _, _; split; [reflexivity|]; split; [|split; [|split; reflexivity]].
  - intros p Hp; destruct p; try reflexivity; exfalso; apply Hp; simpl; tauto.
  - apply dot_log_writes_only.
Qed.

Ltac sweep_tac :=
  eexists _, _; split; [reflexivity|]; split; [|split];
  [ apply cellwise_log_ok; intros i Hi; repeat constructor; simpl; lia
  | intros p Hp; apply loads_of_each; intros i; simpl in Hp;
    repeat (destruct Hp as [<-|Hp]; [reflexivity|]); destruct Hp
  | intros p Hp; apply stores_of_each; intros i; simpl in Hp;
    repeat (destruct Hp as [<-|Hp]; [reflexivity|]); destruct Hp ].

(** C10. Under a well-formed object (array length a positive multiple of
    1024; what construction yields, see [HIPStream_new_success]) an
    element-wise kernel is launched with [array_size / 1024] groups of 1024
    lanes, [array_size] lanes in all, whose global indices are exactly
    [0 .. array_size - 1];
    each of the six element-wise methods returns without a fault, every
    access it makes is below [array_size], and it touches each cell of the
    arrays it reads and writes exactly once. [dot] returns without a fault
    and all its accesses are inside the buffers. *)
Theorem C10_all_accesses_in_bounds (startScalar initA initB initC : T) s :
  well_formed s ->
  wrap32 (Z.quot (array_size s) TBSIZE) * wrap32 TBSIZE = array_size s /\
  map global_index
    (grid_threads (wrap32 (Z.quot (array_size s) TBSIZE)) (wrap32 TBSIZE))
  = seqZ 0 (array_size s) /\
  sweep_ok s [] [Da; Db; Dc] (init_arrays initA initB initC s) /\
  sweep_ok s [Da] [Dc] (copy s) /\
  sweep_ok s [Dc] [Db] (mul startScalar s) /\
  sweep_ok s [Da; Db] [Dc] (add s) /\
  sweep_ok s [Db; Dc] [Da] (triad startScalar s) /\
  sweep_ok s [Da; Db; Dc] [Da] (nstream startScalar s) /\
  exists v s' l, dot s = Some (v, s', l) /\
                 Forall (access_ok (array_size s) (dot_num_blocks s)) l.
Proof.
  intros Hwf. split.
  { destruct Hwf as [Hsz _ _ _ _ _]. destruct (valid_size_div _ Hsz) as [Hdiv Hpos].
    destruct Hsz as [HN _]. unfold INT_MAX, TBSIZE in *.
    rewrite !wrap32_small by lia. lia. }
  split.
  { apply elementwise_launch_geometry. apply Hwf. }
  unfold sweep_ok.
  rewrite (init_arrays_spec _ _ _ s Hwf), (copy_spec s Hwf), (mul_spec _ s Hwf),
    (add_spec s Hwf), (triad_spec _ s Hwf), (nstream_spec _ s Hwf), (dot_spec s Hwf).
  repeat split; try sweep_tac.
  eexists _, _, _. split; [reflexivity|]. apply dot_log_ok. assumption.
Qed.

(** C9. For a well-formed object (any valid array length, any element
    type), constants [initA], [initB], [initC] and host vectors of
    [array_size] elements, in either build of the read-back: [init_arrays]
    returns and [read_arrays] right after it yields [a] full of [initA],
    [b] full of [initB] and [c] full of [initC]. *)
Theorem C9_initialize_then_read_back (mode : transfer_mode) (initA initB initC : T)
    s (a b c : list T) :
  well_formed s ->
  Z.of_nat (length a) = array_size s ->
  Z.of_nat (length b) = array_size s ->
  Z.of_nat (length c) = array_size s ->
  exists s1 l1,
    init_arrays initA initB initC s = Some (s1, l1) /\
    read_arrays mode s1 a b c
    = Some (replicate (Z.to_nat (array_size s)) initA,
            replicate (Z.to_nat (array_size s)) initB,
            replicate (Z.to_nat (array_size s)) initC).
Proof.
  intros Hwf La Lb Lc.
  rewrite (init_arrays_spec _ _ _ s Hwf). eexists _, _. split; [reflexivity|].
  rewrite read_arrays_spec; [reflexivity| |assumption|assumption|assumption].
  destruct Hwf as [[HN Hrem] Ha Hb Hc Hnb Hsm].
  constructor; cbn; rewrite ?length_replicate; auto; try lia. split; auto.
Qed.

End KernelClaims.

Section ConstructionClaims.
Context {T : Type} {numeric : Numeric T}.
Implicit Types (m : memory T) (s : HIPStream T) (rt : hip_runtime T).
Variable dot_elements_per_lane : Z.

(** C7. If the requested length is not an exact multiple of the work-group
    size, construction throws the array-size error, a
    [ConfigurationError], before any call of the runtime: the list of calls
    is what it was, so no memory of any kind was requested. *)
Theorem C7_length_not_multiple_of_group_size rt (N idx : Z) (tr : list hip_call) :
  ~ (TBSIZE | N) ->
  HIPStream_new dot_elements_per_lane rt N idx tr
  = (Thrown (runtime_error msg_array_size), tr) /\
  error_kind_of (fst (HIPStream_new dot_elements_per_lane rt N idx tr))
  = Some ConfigurationError.
Proof.
  intros Hdiv.
  assert (Hrem : Z.rem N TBSIZE <> 0).
  { intros H. apply Hdiv. apply Z.rem_divide; [unfold TBSIZE; lia|assumption]. }
  rewrite (HIPStream_new_bad_size dot_elements_per_lane rt N idx tr Hrem).
  split; reflexivity.
Qed.

(** C1, as the code has it. For a valid length, a device index in
    [0, deviceCount) whose device reports the same total memory as the one
    the capacity check reads, and an element size of at most 2^16 bytes: if
    [3 * N * sizeof(T)] exceeds that memory, construction never returns an
    object and never calls [hipMalloc], whatever the runtime answers; when
    the seven runtime calls before the check succeed it throws the
    [ResourceExhaustedError], having made those seven calls and no other,
    so exactly one allocation was requested, the host partial-sum
    buffer. *)
Theorem C1_capacity_check_precedes_device_buffers rt (N idx : Z) :
  valid_size N ->
  0 < sizeof (T:=T) <= 2 ^ 16 ->
  0 <= idx < rt_device_count rt ->
  totalGlobalMem (rt_properties rt idx) = totalGlobalMem (rt_properties rt 0) ->
  totalGlobalMem (rt_properties rt idx) < 3 * N * sizeof ->
  let r := HIPStream_new dot_elements_per_lane rt N idx [] in
  let before :=
    [hipGetDeviceCount; hipSetDevice idx; hipGetDeviceProperties idx;
     hipSetDevice idx; hipDriverGetVersion;
     hipHostMalloc (to_size_t (sizeof * blocks_for dot_elements_per_lane N));
     hipGetDeviceProperties 0] in
  (forall s, fst r <> Returned s) /\
  List.filter is_device_alloc (snd r) = [] /\
  (Forall (fun st => st = hipSuccess) (statuses_from rt [] before) ->
   snd r = before /\
   error_kind_of (fst r) = Some ResourceExhaustedError /\
   List.filter is_alloc (snd r)
   = [hipHostMalloc (to_size_t (sizeof * blocks_for dot_elements_per_lane N))]).
Proof.
  intros HN Hs Hidx Hsame Hmem. rewrite Hsame in Hmem.
  destruct (HIPStream_new_exhausted dot_elements_per_lane rt N idx HN Hs
              ltac:(lia) Hmem) as (Hret & Hdev & Hok).
  cbv zeta. split; [exact Hret|]. split.
  - revert Hdev. generalize (snd (HIPStream_new dot_elements_per_lane rt N idx [])).
    intros l Hl. induction Hl as [|c l Hc _ IH]; [reflexivity|].
    cbn [List.filter]. rewrite Hc. exact IH.
  - intros Hrt. rewrite (Hok Hrt). split; [reflexivity|]. split; reflexivity.
Qed.

End ConstructionClaims.

(** C1, as stated, fails. On a device of 1000 bytes, 1024 floats per array
    need 12288 bytes: construction ends in the [ResourceExhaustedError], but
    [hipHostMalloc] has been called before the check. And 1000 floats per
    array need 12000 bytes: construction ends in the array-size error, a
    [ConfigurationError], since that test comes first. *)
Lemma C1_host_buffer_requested_before_check :
  totalGlobalMem (rt_properties (two_devices 1000 1000) 0) < 3 * 1024 * sizeof (T:=float) /\
  HIPStream_new 4 (two_devices 1000 1000) 1024 0 []
  = (Thrown (runtime_error msg_memory),
     [hipGetDeviceCount; hipSetDevice 0; hipGetDeviceProperties 0; hipSetDevice 0;
      hipDriverGetVersion; hipHostMalloc 4; hipGetDeviceProperties 0]) /\
  ~ exhausted_without_allocating (HIPStream_new 4 (two_devices 1000 1000) 1024 0 []) /\
  totalGlobalMem (rt_properties (two_devices 1000 1000) 0) < 3 * 1000 * sizeof (T:=float) /\
  ~ exhausted_without_allocating (HIPStream_new 4 (two_devices 1000 1000) 1000 0 []).
Proof.
  split; [reflexivity|]. split; [reflexivity|]. split; [|split; [reflexivity|]].
  - intros [_ Hall]. vm_compute in Hall.
    repeat (apply Forall_cons in Hall; destruct Hall as [? Hall]). discriminate.
  - intros [Hkind _]. vm_compute in Hkind. discriminate.
Qed.

Lemma C1_witness :
  let rt := two_devices 1000 1000 in
  let r := HIPStream_new 4 rt 1024 0 [] in
  let before :=
    [hipGetDeviceCount; hipSetDevice 0; hipGetDeviceProperties 0;
     hipSetDevice 0; hipDriverGetVersion;
     hipHostMalloc (to_size_t (sizeof (T:=float) * blocks_for 4 1024));
     hipGetDeviceProperties 0] in
  (valid_size 1024 /\ 0 <= 0 < rt_device_count rt /\
   totalGlobalMem (rt_properties rt 0) < 3 * 1024 * sizeof (T:=float) /\
   Forall (fun st => st = hipSuccess) (statuses_from rt [] before)) /\
  (forall s, fst r <> Returned s) /\
  List.filter is_device_alloc (snd r) = [] /\
  snd r = before /\
  error_kind_of (fst r) = Some ResourceExhaustedError /\
  List.filter is_alloc (snd r)
  = [hipHostMalloc (to_size_t (sizeof (T:=float) * blocks_for 4 1024))].
Proof.
  intros rt r before.
  assert (Hv : valid_size 1024) by (split; [unfold INT_MAX; lia|reflexivity]).
  assert (Hi : 0 <= 0 < rt_device_count rt) by (simpl; lia).
  assert (Hm : totalGlobalMem (rt_properties rt 0) < 3 * 1024 * sizeof (T:=float))
    by (simpl; lia).
  assert (Hok : Forall (fun st => st = hipSuccess) (statuses_from rt [] before))
    by (repeat constructor).
  assert (Hs : 0 < sizeof (T:=float) <= 2 ^ 16) by (simpl; lia).
  split; [auto|].
  destruct (C1_capacity_check_precedes_device_buffers 4 rt 1024 0 Hv Hs Hi eq_refl Hm)
    as (Hret & Hdev & Hrest).
  destruct (Hrest Hok) as (Htrace & Hkind & Hallocs).
  auto.
Defined.

Lemma C7_witness :
  ~ (TBSIZE | 1000) /\
  HIPStream_new 4 (two_devices GiB GiB) 1000 0 []
  = (Thrown (runtime_error msg_array_size), []) /\
  error_kind_of (fst (HIPStream_new 4 (two_devices GiB GiB) 1000 0 []))
  = Some ConfigurationError.
Proof.
  assert (Hn : ~ (TBSIZE | 1000)).
  { intros [q Hq]. unfold TBSIZE in Hq. lia. }
  split; [exact Hn|].
  apply (C7_length_not_multiple_of_group_size 4 (two_devices GiB GiB) 1000 0 [] Hn).
Defined.

(** C2. The capacity check reads the properties of device 0 whatever the
    device index. With device 1 selected: when device 1 has 1024 bytes and
    device 0 has 16 GiB, three arrays of 1024 floats (12288 bytes) are
    accepted and the three [hipMalloc] calls are made; when device 1 has
    16 GiB and device 0 has 1024 bytes, the same request is refused. *)
Theorem C2_capacity_is_read_from_device_0 :
  totalGlobalMem (rt_properties (two_devices (16 * GiB) 1024) 1) < 3 * 1024 * sizeof (T:=float) /\
  (exists s, fst (HIPStream_new 4 (two_devices (16 * GiB) 1024) 1024 1 []) = Returned s) /\
  snd (HIPStream_new 4 (two_devices (16 * GiB) 1024) 1024 1 [])
  = [hipGetDeviceCount; hipSetDevice 1; hipGetDeviceProperties 1; hipSetDevice 1;
     hipDriverGetVersion; hipHostMalloc 4; hipGetDeviceProperties 0;
     hipMalloc 4096; hipMalloc 4096; hipMalloc 4096] /\
  3 * 1024 * sizeof (T:=float) <= totalGlobalMem (rt_properties (two_devices 1024 (16 * GiB)) 1) /\
  HIPStream_new 4 (two_devices 1024 (16 * GiB)) 1024 1 []
  = (Thrown (runtime_error msg_memory),
     [hipGetDeviceCount; hipSetDevice 1; hipGetDeviceProperties 1; hipSetDevice 1;
      hipDriverGetVersion; hipHostMalloc 4; hipGetDeviceProperties 0]).
Proof.
  split; [reflexivity|]. split; [eexists; vm_compute; reflexivity|].
  split; [vm_compute; reflexivity|]. split; [vm_compute; discriminate|].
  vm_compute. reflexivity.
Qed.

(** C8. A negative device index passes the test [device_index >= count]:
    the constructor goes on to [hipSetDevice(-1)]. On a runtime that rejects
    the call, [HIP_CHECK] makes it a second time for its message and ends
    the process with [exit(-1)]; on one that accepts it, construction
    succeeds. In neither case is the invalid-index error thrown. *)
Theorem C8_negative_index_is_not_rejected :
  HIPStream_new 4 (two_devices GiB GiB) 1024 (-1) []
  = (Exited (-1), [hipGetDeviceCount; hipSetDevice (-1); hipSetDevice (-1)]) /\
  error_kind_of (fst (HIPStream_new 4 (two_devices GiB GiB) 1024 (-1) []))
  = Some DeviceExecutionError /\
  (exists s, fst (HIPStream_new 4 (lenient (two_devices GiB GiB)) 1024 (-1) []) = Returned s).
Proof.
  split; [reflexivity|]. split; [reflexivity|]. eexists. vm_compute. reflexivity.
Qed.

(** ** Claims on concrete element types *)

Lemma dot_ones_and_twos_float (s : HIPStream float) :
  well_formed s -> ones_and_twos (float_lit 1 0) (float_lit 2 0) s ->
  exists s' l, dot s = Some (float_lit 16384 0, s', l).
Proof.
  intros Hwf (HN & Ha & Hb).
  rewrite (dot_spec s Hwf), (dot_value_uniform _ _ s Hwf Ha Hb).
  unfold dot_fuel, TBSIZE. rewrite HN.
  rewrite uniform_dot_float by (destruct Hwf; lia).
  eexists _, _. reflexivity.
Qed.

Lemma dot_ones_and_twos_double (s : HIPStream double) :
  well_formed s -> ones_and_twos (double_lit 1 0) (double_lit 2 0) s ->
  exists s' l, dot s = Some (double_lit 16384 0, s', l).
Proof.
  intros Hwf (HN & Ha & Hb).
  rewrite (dot_spec s Hwf), (dot_value_uniform _ _ s Hwf Ha Hb).
  unfold dot_fuel, TBSIZE. rewrite HN.
  rewrite uniform_dot_double by (destruct Hwf; lia).
  eexists _, _. reflexivity.
Qed.

(** C3. For a well-formed object of any element type (any valid length,
    any number of work groups the grid admits), [dot] returns and the
    indices it loads from [a], and from [b], are the indices below
    [array_size], each exactly once. On 8192 cells with [a[i] = 1] and
    [b[i] = 2] it returns 16384 = 2 * 8192 exactly, in [float] and in
    [double], whatever the number of work groups. *)
Theorem C3_dot_reads_each_index_once
    {T : Type} {numeric : Numeric T} (s : HIPStream T)
    (sf : HIPStream float) (sd : HIPStream double) :
  well_formed s ->
  well_formed sf -> ones_and_twos (float_lit 1 0) (float_lit 2 0) sf ->
  well_formed sd -> ones_and_twos (double_lit 1 0) (double_lit 2 0) sd ->
  (exists v s' l,
     dot s = Some (v, s', l) /\
     loads_of Da l ≡ₚ seqZ 0 (array_size s) /\
     loads_of Db l ≡ₚ seqZ 0 (array_size s)) /\
  (exists s' l, dot sf = Some (float_lit (2 * 8192) 0, s', l)) /\
  (exists s' l, dot sd = Some (double_lit (2 * 8192) 0, s', l)).
Proof.
  intros Hwf Hwff Hf Hwfd Hd. split; [|split].
  - rewrite (dot_spec s Hwf). eexists _, _, _. split; [reflexivity|].
    apply dot_reads_each_once. assumption.
  - apply dot_ones_and_twos_float; assumption.
  - apply dot_ones_and_twos_double; assumption.
Qed.

(** C4. From [Initialize(1, 1, 1)] with scalar 1, on any well-formed
    object, in [float] and in [double]: one Extended-Triad leaves [a] full
    of 3, a second one full of 5, and [b] and [c] are what [Initialize] made
    them after both. *)
Theorem C4_nstream_accumulates (sf : HIPStream float) (sd : HIPStream double) :
  well_formed sf -> well_formed sd ->
  nstream_twice (float_lit 1 0) (float_lit 3 0) (float_lit 5 0) sf /\
  nstream_twice (double_lit 1 0) (double_lit 3 0) (double_lit 5 0) sd.
Proof.
  intros Hf Hd. split; apply nstream_twice_generic; auto; vm_compute; reflexivity.
Qed.

(** C5. From [Initialize(0, 2, 3)] with scalar 2.5, on any well-formed
    object, in [float] and in [double]: one Triad leaves [a] full of 9.5
    and [b], [c] untouched; a second Triad gives 9.5 again; and [R] Triads
    in a row, for any [R >= 1], end in the state one Triad ends in. *)
Theorem C5_triad_is_stable (sf : HIPStream float) (sd : HIPStream double) :
  well_formed sf -> well_formed sd ->
  triad_stable (float_lit 5 (-1)) (float_lit 0 0) (float_lit 2 0) (float_lit 3 0)
    (float_lit 19 (-1)) sf /\
  triad_stable (double_lit 5 (-1)) (double_lit 0 0) (double_lit 2 0) (double_lit 3 0)
    (double_lit 19 (-1)) sd.
Proof.
  intros Hf Hd. split; apply triad_stable_generic; auto; vm_compute; reflexivity.
Qed.

(** ** Instances *)

Lemma valid_size_1024 : valid_size 1024.
Proof. split; [unfold INT_MAX; lia|reflexivity]. Qed.

Lemma valid_size_8192 : valid_size 8192.
Proof. split; [unfold INT_MAX; lia|reflexivity]. Qed.

Lemma C3_witness :
  let sf := uniform_stream 8192 3 (float_lit 1 0) (float_lit 2 0) nan32 nan32 in
  let sd := uniform_stream 8192 8 (double_lit 1 0) (double_lit 2 0) nan64 nan64 in
  (well_formed sf /\ ones_and_twos (float_lit 1 0) (float_lit 2 0) sf /\
   well_formed sd /\ ones_and_twos (double_lit 1 0) (double_lit 2 0) sd) /\
  (exists v s' l,
     dot sf = Some (v, s', l) /\
     loads_of Da l ≡ₚ seqZ 0 (array_size sf) /\
     loads_of Db l ≡ₚ seqZ 0 (array_size sf)) /\
  (exists s' l, dot sf = Some (float_lit (2 * 8192) 0, s', l)) /\
  (exists s' l, dot sd = Some (double_lit (2 * 8192) 0, s', l)).
Proof.
  intros sf sd.
  assert (Hf : well_formed sf) by (apply uniform_stream_well_formed; [apply valid_size_8192|lia]).
  assert (Hd : well_formed sd) by (apply uniform_stream_well_formed; [apply valid_size_8192|lia]).
  assert (Of : ones_and_twos (float_lit 1 0) (float_lit 2 0) sf) by (repeat split).
  assert (Od : ones_and_twos (double_lit 1 0) (double_lit 2 0) sd) by (repeat split).
  split; [auto|].
  exact (C3_dot_reads_each_index_once sf sf sd Hf Hf Of Hd Od).
Defined.

Lemma C4_witness :
  let sf := uniform_stream 1024 1 nan32 nan32 nan32 nan32 in
  let sd := uniform_stream 2048 1 nan64 nan64 nan64 nan64 in
  (well_formed sf /\ well_formed sd) /\
  nstream_twice (float_lit 1 0) (float_lit 3 0) (float_lit 5 0) sf /\
  nstream_twice (double_lit 1 0) (double_lit 3 0) (double_lit 5 0) sd.
Proof.
  intros sf sd.
  assert (Hf : well_formed sf) by (apply uniform_stream_well_formed; [apply valid_size_1024|lia]).
  assert (Hd : well_formed sd).
  { apply uniform_stream_well_formed; [split; [unfold INT_MAX; lia|reflexivity]|lia]. }
  split; [auto|]. exact (C4_nstream_accumulates sf sd Hf Hd).
Defined.

Lemma C5_witness :
  let sf := uniform_stream 1024 1 nan32 nan32 nan32 nan32 in
  let sd := uniform_stream 2048 1 nan64 nan64 nan64 nan64 in
  (well_formed sf /\ well_formed sd) /\
  triad_stable (float_lit 5 (-1)) (float_lit 0 0) (float_lit 2 0) (float_lit 3 0)
    (float_lit 19 (-1)) sf /\
  triad_stable (double_lit 5 (-1)) (double_lit 0 0) (double_lit 2 0) (double_lit 3 0)
    (double_lit 19 (-1)) sd.
Proof.
  intros sf sd.
  assert (Hf : well_formed sf) by (apply uniform_stream_well_formed; [apply valid_size_1024|lia]).
  assert (Hd : well_formed sd).
  { apply uniform_stream_well_formed; [split; [unfold INT_MAX; lia|reflexivity]|lia]. }
  split; [auto|]. exact (C5_triad_is_stable sf sd Hf Hd).
Defined.

Lemma C6_witness :
  let s := uniform_stream 1024 1 (float_lit 1 0) (float_lit 2 0) (float_lit 3 0) nan32 in
  well_formed s /\
  (frame_ok s [Da; Db; Dc] (init_arrays (float_lit 1 0) (float_lit 2 0) (float_lit 3 0) s) /\
   frame_ok s [Dc] (copy s) /\
   frame_ok s [Db] (mul (float_lit 4 (-1)) s) /\
   frame_ok s [Dc] (add s) /\
   frame_ok s [Da] (triad (float_lit 4 (-1)) s) /\
   frame_ok s [Da] (nstream (float_lit 4 (-1)) s) /\
   frame_ok s [Sums] (drop_value (dot s))).
Proof.
  intros s.
  assert (Hs : well_formed s) by (apply uniform_stream_well_formed; [apply valid_size_1024|lia]).
  split; [exact Hs|].
  exact (C6_kernels_change_their_target_only (float_lit 4 (-1)) (float_lit 1 0)
           (float_lit 2 0) (float_lit 3 0) s Hs).
Defined.

Lemma C9_witness :
  let s := uniform_stream 1024 1 nan64 nan64 nan64 nan64 in
  let host := replicate 1024 (double_lit 0 0) in
  (well_formed s /\ Z.of_nat (length host) = array_size s) /\
  exists s1 l1,
    init_arrays (double_lit 1 (-1)) (double_lit 1 0) (double_lit 0 0) s = Some (s1, l1) /\
    read_arrays managed s1 host host host
    = Some (replicate (Z.to_nat (array_size s)) (double_lit 1 (-1)),
            replicate (Z.to_nat (array_size s)) (double_lit 1 0),
            replicate (Z.to_nat (array_size s)) (double_lit 0 0)).
Proof.
  intros s host.
  assert (Hs : well_formed s) by (apply uniform_stream_well_formed; [apply valid_size_1024|lia]).
  assert (Hl : Z.of_nat (length host) = array_size s).
  { unfold host. rewrite length_replicate. reflexivity. }
  split; [auto|].
  exact (C9_initialize_then_read_back managed (double_lit 1 (-1)) (double_lit 1 0)
           (double_lit 0 0) s host host host Hs Hl Hl Hl).
Defined.

Lemma C10_witness :
  let s := uniform_stream 2048 1 (float_lit 1 0) (float_lit 2 0) (float_lit 3 0) nan32 in
  well_formed s /\
  (wrap32 (Z.quot (array_size s) TBSIZE) * wrap32 TBSIZE = array_size s /\
   map global_index
     (grid_threads (wrap32 (Z.quot (array_size s) TBSIZE)) (wrap32 TBSIZE))
   = seqZ 0 (array_size s) /\
   sweep_ok s [] [Da; Db; Dc] (init_arrays (float_lit 1 0) (float_lit 2 0) (float_lit 3 0) s) /\
   sweep_ok s [Da] [Dc] (copy s) /\
   sweep_ok s [Dc] [Db] (mul (float_lit 4 (-1)) s) /\
   sweep_ok s [Da; Db] [Dc] (add s) /\
   sweep_ok s [Db; Dc] [Da] (triad (float_lit 4 (-1)) s) /\
   sweep_ok s [Da; Db; Dc] [Da] (nstream (float_lit 4 (-1)) s) /\
   exists v s' l, dot s = Some (v, s', l) /\
                  Forall (access_ok (array_size s) (dot_num_blocks s)) l).
Proof.
  intros s.
  assert (Hs : well_formed s).
  { apply uniform_stream_well_formed; [split; [unfold INT_MAX; lia|reflexivity]|lia]. }
  split; [exact Hs|].
  exact (C10_all_accesses_in_bounds (float_lit 4 (-1)) (float_lit 1 0)
           (float_lit 2 0) (float_lit 3 0) s Hs).
Defined.

Section KernelTable.
Context {T : Type} {numeric : Numeric T}.
Implicit Types (m : memory T) (s : HIPStream T).

Lemma well_formed_arrays s a b c :
  well_formed s ->
  length a = Z.to_nat (array_size s) -> length b = Z.to_nat (array_size s) ->
  length c = Z.to_nat (array_size s) ->
  well_formed (with_memory s {| d_a := a; d_b := b; d_c := c; sums := sums (mem s) |}).
Proof.
  intros Hwf La Lb Lc. apply well_formed_with_memory; auto;
    destruct Hwf as [[HN Hrem] Ha Hb Hc Hnb Hsm]; lia.
Qed.

Lemma well_formed_lengths s :
  well_formed s ->
  length (d_a (mem s)) = Z.to_nat (array_size s) /\
  length (d_b (mem s)) = Z.to_nat (array_size s) /\
  length (d_c (mem s)) = Z.to_nat (array_size s).
Proof. intros [[HN Hrem] Ha Hb Hc Hnb Hsm]. lia. Qed.

(** X1. On a well-formed object, each of the five benchmark kernels
    returns and computes the cell-wise map of its line of the kernel table,
    for arbitrary array contents: Copy [c = a]; Scale [b = scalar * c]; Add
    [c = a + b]; Triad [a = b + scalar * c]; Extended-Triad
    [a = a + (b + scalar * c)], all read from the arrays as they were
    before the call. *)
Theorem X1_kernels_compute_their_table_row (startScalar : T) s :
  well_formed s ->
  (exists s' l, copy s = Some (s', l) /\ d_c (mem s') = d_a (mem s)) /\
  (exists s' l, mul startScalar s = Some (s', l) /\
                d_b (mem s') = map (elt_mul startScalar) (d_c (mem s))) /\
  (exists s' l, add s = Some (s', l) /\
                d_c (mem s') = zip_with elt_add (d_a (mem s)) (d_b (mem s))) /\
  (exists s' l, triad startScalar s = Some (s', l) /\
                d_a (mem s') = zip_with (fun y z => elt_add y (elt_mul startScalar z))
                                 (d_b (mem s)) (d_c (mem s))) /\
  (exists s' l, nstream startScalar s = Some (s', l) /\
                d_a (mem s') = map3 (fun x y z => elt_add x (elt_add y (elt_mul startScalar z)))
                                 (d_a (mem s)) (d_b (mem s)) (d_c (mem s))).
Proof.
  intros Hwf.
  rewrite (copy_spec s Hwf), (mul_spec _ s Hwf), (add_spec s Hwf),
    (triad_spec _ s Hwf), (nstream_spec _ s Hwf).
  repeat split; eexists _, _; split; reflexivity.
Qed.

Lemma copy_fixed_point s :
  well_formed s -> d_c (mem s) = d_a (mem s) -> exists l, copy s = Some (s, l).
Proof.
  intros Hwf Hc. rewrite (copy_spec s Hwf). eexists. f_equal. f_equal.
  destruct s as [N nb [a b c sm]]. simpl in *. subst c. reflexivity.
Qed.

(** X2. Copy is idempotent under repetition: on a well-formed object, [R]
    calls in a row, for any [R >= 1], end in the state one call ends in,
    where [c] equals [a] and [a], [b] and [sums] are as before. *)
Theorem X2_copy_is_idempotent (R : nat) s :
  well_formed s -> (1 <= R)%nat ->
  exists s1 l1,
    copy s = Some (s1, l1) /\ repeat_call copy R s = Some s1 /\
    d_c (mem s1) = d_a (mem s) /\ d_a (mem s1) = d_a (mem s) /\
    d_b (mem s1) = d_b (mem s) /\ sums (mem s1) = sums (mem s).
Proof.
  intros Hwf HR. pose proof (copy_spec s Hwf) as H1.
  set (s1 := with_memory s _) in H1.
  destruct (well_formed_lengths s Hwf) as (La & Lb & Lc).
  assert (Hwf1 : well_formed s1) by (apply well_formed_arrays; auto).
  destruct (copy_fixed_point s1 Hwf1 eq_refl) as [l Hfix].
  eexists s1, _. split; [exact H1|]. split; [|cbn; auto].
  destruct R as [|R]; [lia|]. cbn [repeat_call]. rewrite H1. clear HR.
  induction R as [|R IH]; [reflexivity|]. cbn [repeat_call]. rewrite Hfix. exact IH.
Qed.

(** X3. Triad is idempotent on arbitrary contents: on a well-formed object
    a second Triad right after the first changes nothing, and [R >= 1]
    Triads in a row end in the state one Triad ends in. *)
Theorem X3_triad_is_idempotent (startScalar : T) (R : nat) s :
  well_formed s -> (1 <= R)%nat ->
  exists s1 l1 l2,
    triad startScalar s = Some (s1, l1) /\
    triad startScalar s1 = Some (s1, l2) /\
    repeat_call (triad startScalar) R s = Some s1.
Proof.
  intros Hwf HR. pose proof (triad_spec startScalar s Hwf) as H1.
  set (s1 := with_memory s _) in H1.
  destruct (well_formed_lengths s Hwf) as (La & Lb & Lc).
  assert (Hwf1 : well_formed s1).
  { apply well_formed_arrays; auto. rewrite length_zip_with. lia. }
  pose proof (triad_spec startScalar s1 Hwf1) as H2.
  assert (Hfix : exists l, triad startScalar s1 = Some (s1, l)).
  { eexists. rewrite H2. reflexivity. }
  destruct Hfix as [l2 Hfix].
  eexists s1, _, l2. split; [exact H1|]. split; [exact Hfix|].
  destruct R as [|R]; [lia|]. cbn [repeat_call]. rewrite H1. clear HR.
  induction R as [|R IH]; [reflexivity|]. cbn [repeat_call]. rewrite Hfix. exact IH.
Qed.

(** *** Any sequence of calls *)

Lemma run_method_well_formed (startScalar : T) (c : method) s :
  well_formed s ->
  exists s', run_method startScalar c s = Some s' /\ well_formed s' /\
             array_size s' = array_size s /\ dot_num_blocks s' = dot_num_blocks s.
Proof.
  intros Hwf. destruct (well_formed_lengths s Hwf) as (La & Lb & Lc).
  destruct c; cbn [run_method].
  - rewrite (init_arrays_spec _ _ _ s Hwf). eexists. split; [reflexivity|].
    split; [|split; reflexivity].
    apply well_formed_arrays; auto; apply length_replicate.
  - rewrite (copy_spec s Hwf). eexists. split; [reflexivity|].
    split; [|split; reflexivity]. apply well_formed_arrays; auto.
  - rewrite (mul_spec _ s Hwf). eexists. split; [reflexivity|].
    split; [|split; reflexivity]. apply well_formed_arrays; auto.
    rewrite length_map. assumption.
  - rewrite (add_spec s Hwf). eexists. split; [reflexivity|].
    split; [|split; reflexivity]. apply well_formed_arrays; auto.
    rewrite length_zip_with. lia.
  - rewrite (triad_spec _ s Hwf). eexists. split; [reflexivity|].
    split; [|split; reflexivity]. apply well_formed_arrays; auto.
    rewrite length_zip_with. lia.
  - rewrite (nstream_spec _ s Hwf). eexists. split; [reflexivity|].
    split; [|split; reflexivity]. apply well_formed_arrays; auto.
    apply map3_length; assumption.
  - rewrite (dot_spec s Hwf). eexists. split; [reflexivity|].
    split; [|split; reflexivity].
    destruct Hwf as [[HN Hrem] Ha Hb Hc Hnb Hsm].
    constructor; cbn; auto; [split; auto|].
    unfold dot_partials. rewrite length_map, length_seq. lia.
Qed.

(** X4. Well-formedness is an invariant of the object: whatever sequence of
    [init_arrays], the five kernels and [dot] is called on a well-formed
    object, every call returns without a fault and the object stays
    well-formed, with the same [array_size] and [dot_num_blocks]. *)
Theorem X4_any_call_sequence_runs (startScalar : T) (cs : list method) s :
  well_formed s ->
  exists s', run_methods startScalar cs s = Some s' /\ well_formed s' /\
             array_size s' = array_size s /\ dot_num_blocks s' = dot_num_blocks s.
Proof.
  revert s. induction cs as [|c cs IH]; intros s Hwf.
  - exists s. auto.
  - destruct (run_method_well_formed startScalar c s Hwf) as (s1 & H1 & Hwf1 & HN & Hnb).
    destruct (IH s1 Hwf1) as (s' & H' & Hwf' & HN' & Hnb').
    exists s'. cbn [run_methods]. rewrite H1.
    split; [exact H'|]. split; [exact Hwf'|]. split; congruence.
Qed.

End KernelTable.

Section UniformRounds.
Context {T : Type} {numeric : Numeric T}.
Implicit Types (m : memory T) (s : HIPStream T).

Lemma map_replicate (f : T -> T) n x : map f (replicate n x) = replicate n (f x).
Proof. induction n; simpl; congruence. Qed.

Lemma kernels_on_uniform (scalar : T) N nb x y z w :
  valid_size N -> 0 < nb < 2 ^ 22 ->
  run_method scalar call_copy (uniform_stream N nb x y z w)
  = Some (uniform_stream N nb x y x w) /\
  run_method scalar call_mul (uniform_stream N nb x y z w)
  = Some (uniform_stream N nb x (elt_mul scalar z) z w) /\
  run_method scalar call_add (uniform_stream N nb x y z w)
  = Some (uniform_stream N nb x y (elt_add x y) w) /\
  run_method scalar call_triad (uniform_stream N nb x y z w)
  = Some (uniform_stream N nb (elt_add y (elt_mul scalar z)) y z w).
Proof.
  intros HN Hnb.
  assert (Hwf : well_formed (uniform_stream N nb x y z w))
    by (apply uniform_stream_well_formed; assumption).
  cbn [run_method].
  rewrite (copy_spec _ Hwf), (mul_spec _ _ Hwf), (add_spec _ Hwf), (triad_spec _ _ Hwf).
  cbn [fmap option_fmap option_map fst uniform_stream mem d_a d_b d_c sums with_memory
       array_size dot_num_blocks].
  rewrite map_replicate, !zip_with_replicate. auto.
Qed.

Lemma round_on_uniform (scalar : T) N nb x y z w :
  valid_size N -> 0 < nb < 2 ^ 22 ->
  run_methods scalar [call_copy; call_mul; call_add; call_triad]
    (uniform_stream N nb x y z w)
  = Some (let '(a, b, c) := round_values scalar (x, y, z) in uniform_stream N nb a b c w).
Proof.
  intros HN Hnb. cbn [run_methods].
  destruct (kernels_on_uniform scalar N nb x y z w HN Hnb) as (-> & _).
  destruct (kernels_on_uniform scalar N nb x y x w HN Hnb) as (_ & -> & _).
  destruct (kernels_on_uniform scalar N nb x (elt_mul scalar x) x w HN Hnb)
    as (_ & _ & -> & _).
  destruct (kernels_on_uniform scalar N nb x (elt_mul scalar x)
              (elt_add x (elt_mul scalar x)) w HN Hnb) as (_ & _ & _ & ->).
  reflexivity.
Qed.

Lemma run_methods_app (scalar : T) cs1 cs2 s :
  run_methods scalar (cs1 ++ cs2) s
  = match run_methods scalar cs1 s with
    | Some s' => run_methods scalar cs2 s'
    | None => None
    end.
Proof.
  revert s. induction cs1 as [|c cs1 IH]; intros s; [reflexivity|].
  cbn [app run_methods]. destruct (run_method scalar c s); [apply IH|reflexivity].
Qed.

(** X5. Arrays that are constant stay constant under the four classic
    kernels, and the three values follow the scalar recurrence
    [c = a; b = scalar * c; c = a + b; a = b + scalar * c]: after [R] rounds
    of Copy, Scale, Add, Triad the arrays hold, in every cell, the values
    the recurrence gives after [R] steps. [sums] is not touched. *)
Theorem X5_rounds_follow_the_scalar_recurrence (scalar : T) N nb x y z w (R : nat) :
  valid_size N -> 0 < nb < 2 ^ 22 ->
  run_methods scalar
    (concat (replicate R [call_copy; call_mul; call_add; call_triad]))
    (uniform_stream N nb x y z w)
  = Some (let '(a, b, c) := Nat.iter R (round_values scalar) (x, y, z) in
          uniform_stream N nb a b c w).
Proof.
  intros HN Hnb. revert x y z. induction R as [|R IH]; intros x y z; [reflexivity|].
  rewrite Nat.iter_succ_r. cbn [replicate concat].
  rewrite run_methods_app, round_on_uniform by assumption.
  destruct (round_values scalar (x, y, z)) as [[a b] c]. apply IH.
Qed.

(** X6. What [dot] returns is the left-to-right sum of the partial sums it
    leaves in [sums], one per work group; the value and the partial sums
    depend on [a], [b], [array_size] and [dot_num_blocks] only: two
    well-formed objects that agree on these get the same result whatever
    [c] and [sums] held, so calling [dot] again returns the same value. *)
Theorem X6_dot_is_the_sum_of_its_partials s1 s2 :
  well_formed s1 -> well_formed s2 ->
  array_size s2 = array_size s1 -> dot_num_blocks s2 = dot_num_blocks s1 ->
  d_a (mem s2) = d_a (mem s1) -> d_b (mem s2) = d_b (mem s1) ->
  exists v s1' l1 s2' l2,
    dot s1 = Some (v, s1', l1) /\ dot s2 = Some (v, s2', l2) /\
    v = fold_left elt_add (sums (mem s1')) elt_zero /\
    sums (mem s2') = sums (mem s1') /\
    Z.of_nat (length (sums (mem s1'))) = dot_num_blocks s1 /\
    d_c (mem s1') = d_c (mem s1) /\ d_c (mem s2') = d_c (mem s2) /\
    exists l3, dot s1' = Some (v, s1', l3).
Proof.
  intros Hwf1 Hwf2 HN Hnb Ha Hb.
  pose proof (dot_spec s1 Hwf1) as H1. pose proof (dot_spec s2 Hwf2) as H2.
  assert (Hp : dot_partials s2 = dot_partials s1).
  { unfold dot_partials, dot_fuel. rewrite HN, Hnb, Ha, Hb. reflexivity. }
  assert (Hv : dot_value s2 = dot_value s1) by (unfold dot_value; rewrite Hp; reflexivity).
  rewrite Hv, Hp in H2.
  set (s1' := with_memory s1 _) in H1.
  assert (Hwf1' : well_formed s1').
  { destruct Hwf1 as [[HN1 Hrem] Ha1 Hb1 Hc1 Hnb1 Hsm1].
    constructor; cbn; auto; [split; auto|].
    unfold dot_partials. rewrite length_map, length_seq. lia. }
  pose proof (dot_spec s1' Hwf1') as H3.
  assert (Hp' : dot_partials s1' = dot_partials s1) by reflexivity.
  assert (Hv' : dot_value s1' = dot_value s1) by reflexivity.
  rewrite Hv' in H3.
  eexists _, _, _, _, _. split; [exact H1|]. split; [exact H2|].
  split; [reflexivity|]. split; [reflexivity|]. split.
  { cbn. unfold dot_partials. rewrite length_map, length_seq.
    destruct Hwf1 as [_ _ _ _ Hnb1 _]. lia. }
  split; [reflexivity|]. split; [reflexivity|].
  eexists. rewrite H3. reflexivity.
Qed.

(** *** How many cells a lane of the reduction reads *)

Lemma strided_length_le S N :
  0 < S -> forall fuel i k, 0 <= k -> N <= i + k * S ->
  Z.of_nat (length (strided fuel i S N)) <= k.
Proof.
  intros HS. induction fuel as [|fuel IH]; intros i k Hk HN; cbn [strided length]; [lia|].
  destruct (i <? N) eqn:E; cbn [length]; [|lia].
  apply Z.ltb_lt in E. assert (1 <= k) by nia.
  specialize (IH (i + S) (k - 1) ltac:(lia) ltac:(nia)). lia.
Qed.

Lemma strided_length_pos fuel i S N :
  i < N -> (1 <= length (strided (Datatypes.S fuel) i S N))%nat.
Proof. intros E. cbn [strided]. apply Z.ltb_lt in E. rewrite E. cbn [length]. lia. Qed.

Lemma blocks_for_cover e N :
  valid_size N -> 0 < e ->
  TBSIZE * blocks_for e N <= N <= blocks_for e N * (TBSIZE * e) /\
  (blocks_for e N - 1) * (TBSIZE * e) < N.
Proof.
  intros HN He. destruct (valid_size_div N HN) as [Hq Hqpos].
  destruct HN as [HN _]. unfold INT_MAX, blocks_for, TBSIZE in *.
  set (q := Z.quot N 1024) in *.
  rewrite Z.quot_div_nonneg by lia.
  set (S := 1024 * e). assert (HS : 0 < S) by (subst S; lia).
  pose proof (Z.div_mod (N + (S - 1)) S ltac:(lia)) as Hdm.
  pose proof (Z.mod_pos_bound (N + (S - 1)) S HS) as Hm.
  set (nb := (N + (S - 1)) / S) in *.
  assert (Hle : nb <= q).
  { apply Z.lt_succ_r. apply Z.div_lt_upper_bound; [lia|]. subst S. nia. }
  split; [split|]; nia.
Qed.

End UniformRounds.

Section LaneBounds.
Context {T : Type} {numeric : Numeric T}.
Implicit Types (m : memory T) (s : HIPStream T).

Lemma dot_lane_spec s (blk t : nat) :
  well_formed s ->
  Z.of_nat blk < dot_num_blocks s -> Z.of_nat t < TBSIZE ->
  dot_lane (dot_fuel s) Da Db (array_size s)
    {| threadIdx_x := Z.of_nat t; blockIdx_x := Z.of_nat blk;
       blockDim_x := TBSIZE; gridDim_x := dot_num_blocks s |} (mem s)
  = Some (lane_sum (d_a (mem s)) (d_b (mem s))
            (lane_indices (dot_fuel s) (array_size s) (dot_num_blocks s) TBSIZE blk t)
            elt_zero,
          mem s,
          lane_log (lane_indices (dot_fuel s) (array_size s) (dot_num_blocks s) TBSIZE blk t)).
Proof.
  intros [[HN Hrem] Ha Hb Hc Hnb Hsm] Hblk Ht. unfold dot_lane, lane_indices, TBSIZE in *.
  cbn [threadIdx_x blockIdx_x blockDim_x].
  rewrite (wrap32_small (1024 * Z.of_nat blk)) by nia.
  rewrite (to_size_t_small (1024 * Z.of_nat blk + Z.of_nat t)) by nia.
  apply (dot_lane_loop_spec (array_size s) (1024 * dot_num_blocks s)); auto.
  - cbn. apply wrap32_small. nia.
  - nia.
  - nia.
  - unfold dot_fuel. nia.
Qed.

(** X7. In an object whose number of work groups is the one the
    constructor computes from [dot_elements_per_lane], every lane of every
    work group of the reduction runs its loop without a fault, leaves the
    memory as it is, reads the same indices of [a] and of [b], and reads at
    least one and at most [dot_elements_per_lane] of them. *)
Theorem X7_lane_reads_between_one_and_elements_per_lane
    (dot_elements_per_lane : Z) s (blk t : nat) :
  well_formed s -> 0 < dot_elements_per_lane ->
  dot_num_blocks s = blocks_for dot_elements_per_lane (array_size s) ->
  Z.of_nat blk < dot_num_blocks s -> Z.of_nat t < TBSIZE ->
  exists v l,
    dot_lane (dot_fuel s) Da Db (array_size s)
      {| threadIdx_x := Z.of_nat t; blockIdx_x := Z.of_nat blk;
         blockDim_x := TBSIZE; gridDim_x := dot_num_blocks s |} (mem s)
    = Some (v, mem s, l) /\
    loads_of Da l = loads_of Db l /\
    1 <= Z.of_nat (length (loads_of Da l)) <= dot_elements_per_lane.
Proof.
  intros Hwf He Hnb Hblk Ht. rewrite (dot_lane_spec s blk t Hwf Hblk Ht).
  eexists _, _. split; [reflexivity|].
  rewrite loads_of_lane_log_a, loads_of_lane_log_b. split; [reflexivity|].
  destruct Hwf as [HN _ _ _ Hnbr _].
  destruct (blocks_for_cover dot_elements_per_lane (array_size s) HN He) as [[Hlo Hhi] _].
  rewrite <- Hnb in Hlo, Hhi. unfold lane_indices, TBSIZE in *. split.
  - unfold dot_fuel.
    pose proof (strided_length_pos (Z.to_nat (array_size s))
                  (1024 * Z.of_nat blk + Z.of_nat t) (1024 * dot_num_blocks s)
                  (array_size s) ltac:(nia)). lia.
  - apply strided_length_le; nia.
Qed.

End LaneBounds.

Section ConstructorTrace.
Context {T : Type} {numeric : Numeric T}.
Variable dot_elements_per_lane : Z.
Implicit Types (m : memory T) (s : HIPStream T) (rt : hip_runtime T).

Ltac run_constructor :=
  unfold HIPStream_new;
  cbv beta iota zeta
      delta [hbind HIP_CHECK call getDeviceName getDeviceDriver hret throw exit fst snd];
  cbn [app].

Ltac case_status rt :=
  match goal with
  | |- context [hipError_eqb (rt_status rt ?tr ?c) hipSuccess] =>
      let E := fresh "E" in
      destruct (hipError_eqb (rt_status rt tr c) hipSuccess) eqn:E
  end.

Ltac use_statuses :=
  cbn [statuses_from forallb app]; unfold succeeded;
  repeat match goal with H : hipError_eqb _ _ = true |- _ => rewrite H end;
  cbn [andb]; try reflexivity.

Ltac close_trace :=
  cbn [fst snd app] in *;
  lazymatch goal with
  | |- _ /\ (exists pre c, ?l = _ /\ _) =>
      split; [reflexivity|];
      exists (List.removelast (List.removelast l)), (List.last l hipGetDeviceCount);
      cbn [List.removelast List.last app];
      split; [reflexivity|split; [use_statuses|unfold succeeded; assumption]]
  | |- _ => use_statuses
  end.

Lemma hipError_eqb_eq st : hipError_eqb st hipSuccess = true <-> st = hipSuccess.
Proof. destruct st; simpl; split; congruence. Qed.

Lemma HIPStream_new_returned rt (N idx : Z) s tr :
  HIPStream_new dot_elements_per_lane rt N idx [] = (Returned s, tr) ->
  (TBSIZE | N) /\ idx < rt_device_count rt /\
  to_size_t (to_size_t (3 * N) * sizeof) <= totalGlobalMem (rt_properties rt 0) /\
  tr = [hipGetDeviceCount; hipSetDevice idx; hipGetDeviceProperties idx;
        hipSetDevice idx; hipDriverGetVersion;
        hipHostMalloc (to_size_t (sizeof * blocks_for dot_elements_per_lane N));
        hipGetDeviceProperties 0;
        hipMalloc (to_size_t (sizeof * N)); hipMalloc (to_size_t (sizeof * N));
        hipMalloc (to_size_t (sizeof * N))] /\
  Forall (fun st => st = hipSuccess) (statuses_from rt [] tr) /\
  array_size s = N /\ dot_num_blocks s = blocks_for dot_elements_per_lane N.
Proof.
  run_constructor. fold (blocks_for dot_elements_per_lane N).
  destruct (Z.rem N TBSIZE =? 0) eqn:Hrem; cbn [negb]; [|discriminate].
  case_status rt; [|discriminate].
  destruct (idx >=? rt_device_count rt) eqn:Hidx; [discriminate|].
  do 4 (case_status rt; [|discriminate]).
  case_status rt; [|discriminate].
  case_status rt; [|discriminate].
  destruct (_ <? _) eqn:Hmem; [discriminate|].
  do 3 (case_status rt; [|discriminate]).
  intros [= <- <-].
  apply Z.eqb_eq in Hrem. rewrite Z.geb_leb in Hidx. apply Z.leb_gt in Hidx.
  apply Z.ltb_ge in Hmem.
  repeat match goal with H : hipError_eqb _ _ = true |- _ => apply hipError_eqb_eq in H end.
  split. { apply Z.rem_divide; [unfold TBSIZE; lia|assumption]. }
  split; [assumption|]. split; [assumption|]. split; [reflexivity|].
  split; [|split; reflexivity].
  cbn [statuses_from app]. repeat constructor; assumption.
Qed.

(** X8. Construction returns an object only after every test has passed:
    [ARRAY_SIZE] is then a multiple of 1024, [device_index] is below the
    device count, the capacity read is at least the size computed for the
    three arrays, all ten runtime calls were made in the order of the
    source and succeeded, and the object holds [ARRAY_SIZE] and the number
    of work groups. *)
Theorem X8_a_returned_object_passed_every_test rt (N idx : Z) s tr :
  HIPStream_new dot_elements_per_lane rt N idx [] = (Returned s, tr) ->
  (TBSIZE | N) /\ idx < rt_device_count rt /\
  to_size_t (to_size_t (3 * N) * sizeof) <= totalGlobalMem (rt_properties rt 0) /\
  tr = [hipGetDeviceCount; hipSetDevice idx; hipGetDeviceProperties idx;
        hipSetDevice idx; hipDriverGetVersion;
        hipHostMalloc (to_size_t (sizeof * blocks_for dot_elements_per_lane N));
        hipGetDeviceProperties 0;
        hipMalloc (to_size_t (sizeof * N)); hipMalloc (to_size_t (sizeof * N));
        hipMalloc (to_size_t (sizeof * N))] /\
  Forall (fun st => st = hipSuccess) (statuses_from rt [] tr) /\
  array_size s = N /\ dot_num_blocks s = blocks_for dot_elements_per_lane N.
Proof. apply HIPStream_new_returned. Qed.

(** X9. With a runtime whose calls succeed, a valid length, a device index
    below the count and a positive [dot_elements_per_lane], construction
    returns exactly when the capacity read is at least [3 * N * sizeof(T)],
    equality included. The object is then well-formed, each [hipMalloc] asks
    for [N * sizeof(T)] bytes, and the number of work groups is [N] divided
    by [1024 * dot_elements_per_lane] rounded up, which is also at most
    [N / 1024]. *)
Theorem X9_construction_succeeds_iff_capacity_suffices rt (N idx : Z) :
  valid_size N -> 0 < sizeof (T:=T) <= 2 ^ 16 ->
  idx < rt_device_count rt -> runtime_ok rt -> 0 < dot_elements_per_lane ->
  ((exists s tr, HIPStream_new dot_elements_per_lane rt N idx [] = (Returned s, tr))
   <-> 3 * N * sizeof <= totalGlobalMem (rt_properties rt 0)) /\
  (forall s tr,
     HIPStream_new dot_elements_per_lane rt N idx [] = (Returned s, tr) ->
     well_formed s /\
     List.filter is_device_alloc tr
     = [hipMalloc (N * sizeof); hipMalloc (N * sizeof); hipMalloc (N * sizeof)] /\
     (dot_num_blocks s - 1) * (TBSIZE * dot_elements_per_lane) < N
       <= dot_num_blocks s * (TBSIZE * dot_elements_per_lane) /\
     TBSIZE * dot_num_blocks s <= N).
Proof.
  intros HN Hs Hidx Hok He. split.
  - split.
    + intros (s & tr & H). apply HIPStream_new_returned in H.
      destruct H as (_ & _ & Hmem & _).
      rewrite capacity_no_wrap in Hmem; [assumption|destruct HN; lia|assumption].
    + intros Hmem.
      destruct (HIPStream_new_success dot_elements_per_lane rt N idx HN Hs Hidx Hok Hmem He)
        as (s & tr & H & _). eauto.
  - intros s tr H.
    pose proof (HIPStream_new_returned rt N idx s tr H)
      as (_ & _ & Hmem & Htr & _ & HsN & Hsnb).
    rewrite capacity_no_wrap in Hmem; [|destruct HN; lia|assumption].
    destruct (HIPStream_new_success dot_elements_per_lane rt N idx HN Hs Hidx Hok Hmem He)
      as (s0 & tr0 & H0 & _ & _ & Hwf).
    rewrite H in H0. injection H0 as <- <-.
    split; [assumption|]. split.
    + rewrite Htr. cbn.
      rewrite to_size_t_small by (destruct HN as [HN _]; unfold INT_MAX in HN; nia).
      rewrite Z.mul_comm. reflexivity.
    + rewrite Hsnb.
      destruct (blocks_for_cover dot_elements_per_lane N HN He) as [[Hlo Hhi] Hlt].
      lia.
Qed.

(** X10. A device index at or above the device count is refused with the
    invalid-index error, a [ConfigurationError], right after the count has
    been read: no device is selected and nothing is allocated. With no
    device at all this holds for every index from 0 up. *)
Theorem X10_index_at_or_above_count_is_refused rt (N idx : Z) :
  (TBSIZE | N) -> rt_device_count rt <= idx ->
  rt_status rt [] hipGetDeviceCount = hipSuccess ->
  HIPStream_new dot_elements_per_lane rt N idx []
  = (Thrown (runtime_error msg_device_index), [hipGetDeviceCount]) /\
  error_kind_of (fst (HIPStream_new dot_elements_per_lane rt N idx []))
  = Some ConfigurationError.
Proof.
  intros Hdiv Hidx Hok.
  assert (Hrem : Z.rem N TBSIZE = 0) by (apply Z.rem_divide; [unfold TBSIZE; lia|assumption]).
  rewrite (HIPStream_new_index_too_large dot_elements_per_lane rt N idx Hrem Hidx Hok).
  split; reflexivity.
Qed.

(** X11. Whatever the runtime answers, the constructor stops at the first
    runtime call that fails. When the process is ended, the code is -1 and
    the list of calls is: calls that all succeeded, then the call that
    failed, then the same call once more, made by [HIP_CHECK] for its
    message; nothing follows it. When the constructor throws or returns,
    every call it made succeeded. *)
Theorem X11_constructor_stops_at_first_failed_call rt (N idx : Z) :
  let r := HIPStream_new dot_elements_per_lane rt N idx [] in
  match fst r with
  | Exited code =>
      code = -1 /\
      exists pre c,
        snd r = pre ++ [c; c] /\
        forallb succeeded (statuses_from rt [] pre) = true /\
        succeeded (rt_status rt pre c) = false
  | _ => forallb succeeded (statuses_from rt [] (snd r)) = true
  end.
Proof.
  cbv zeta. run_constructor.
  destruct (Z.rem N TBSIZE =? 0); cbn [negb]; [|close_trace].
  case_status rt; [|close_trace].
  destruct (idx >=? rt_device_count rt); [close_trace|].
  repeat (case_status rt; [|close_trace]).
  destruct (_ <? _); [close_trace|].
  repeat (case_status rt; [|close_trace]).
  close_trace.
Qed.


End ConstructorTrace.

Ltac distinct_buffers :=
  repeat (constructor;
          [let H := fresh in
           intros H;
           repeat (apply elem_of_cons in H; destruct H as [H|H]; [discriminate|]);
           inversion H|]);
  constructor.

(** X13. Whatever the runtime answers, the destructor never throws and
    releases in the order [sums] (with [hipHostFree]), [d_a], [d_b], [d_c]
    (with [hipFree]). It returns exactly when all four releases succeeded,
    and then each buffer was released once. Otherwise the process ends with
    code -1 at the first release that failed: the buffers before it were
    released once, the failing release was made twice, the second time by
    [HIP_CHECK] for its message, and the later buffers were not released. *)
Theorem X13_destructor_releases_in_order_until_a_failure
    (status : list hip_release -> hip_release -> hipError_t) :
  let r := HIPStream_delete status in
  let all := [hipHostFree Sums; hipFree Da; hipFree Db; hipFree Dc] in
  match fst r with
  | Returned _ =>
      snd r = all /\ NoDup (map released (snd r)) /\
      forall j c, all !! j = Some c -> status (take j all) c = hipSuccess
  | Exited code =>
      code = -1 /\
      exists k c,
        all !! k = Some c /\
        snd r = take k all ++ [c; c] /\
        status (take k all) c <> hipSuccess /\
        forall j c', (j < k)%nat -> all !! j = Some c' ->
                     status (take j all) c' = hipSuccess
  | Thrown _ => False
  end.
Proof.
  cbv zeta. unfold HIPStream_delete. cbn [release_each app].
  assert (Hne : forall st, hipError_eqb st hipSuccess = false -> st <> hipSuccess).
  { intros st H ->. discriminate. }
  assert (Heq : forall st, hipError_eqb st hipSuccess = true -> st = hipSuccess).
  { intros st H. destruct st; (reflexivity || discriminate). }
  destruct (hipError_eqb (status [] _) _) eqn:E1; cbn [fst snd].
  2:{ split; [reflexivity|]. exists 0%nat, (hipHostFree Sums).
      split; [reflexivity|]. split; [reflexivity|]. split; [apply Hne; assumption|].
      intros j c' Hj. lia. }
  destruct (hipError_eqb (status [_] _) _) eqn:E2; cbn [fst snd].
  2:{ split; [reflexivity|]. exists 1%nat, (hipFree Da).
      split; [reflexivity|]. split; [reflexivity|]. split; [apply Hne; assumption|].
      intros [|j] c' Hj Hc; [|lia]. injection Hc as <-. apply Heq. assumption. }
  destruct (hipError_eqb (status [_; _] _) _) eqn:E3; cbn [fst snd].
  2:{ split; [reflexivity|]. exists 2%nat, (hipFree Db).
      split; [reflexivity|]. split; [reflexivity|]. split; [apply Hne; assumption|].
      intros [|[|j]] c' Hj Hc; [| |lia]; injection Hc as <-; apply Heq; assumption. }
  destruct (hipError_eqb (status [_; _; _] _) _) eqn:E4; cbn [fst snd].
  2:{ split; [reflexivity|]. exists 3%nat, (hipFree Dc).
      split; [reflexivity|]. split; [reflexivity|]. split; [apply Hne; assumption|].
      intros [|[|[|j]]] c' Hj Hc; [| | |lia]; injection Hc as <-; apply Heq; assumption. }
  split; [reflexivity|]. split; [cbn [map released]; distinct_buffers|].
  intros [|[|[|[|j]]]] c Hc; try discriminate; injection Hc as <-; apply Heq; assumption.
Qed.

Section Listing.
Context {T : Type} {numeric : Numeric T}.
Implicit Types (rt : hip_runtime T).

Lemma getDeviceName_cases rt i tr :
  getDeviceName rt i tr
  = if hipError_eqb (rt_status rt tr (hipGetDeviceProperties i)) hipSuccess
    then (Returned (name (rt_properties rt i)), tr ++ [hipGetDeviceProperties i])
    else (Exited (-1), tr ++ [hipGetDeviceProperties i; hipGetDeviceProperties i]).
Proof.
  cbv beta iota zeta delta [getDeviceName hbind HIP_CHECK call hret exit].
  destruct (hipError_eqb _ _); [reflexivity|].
  rewrite <- app_assoc. reflexivity.
Qed.

Lemma take_seqZ (k : nat) (n : Z) :
  Z.of_nat k <= n -> take k (seqZ 0 n) = seqZ 0 (Z.of_nat k).
Proof.
  intros Hk. apply list_eq. intros j. destruct (decide (j < k)%nat).
  - rewrite lookup_take_lt by assumption. rewrite !lookup_seqZ_lt by lia. reflexivity.
  - rewrite lookup_take_ge by lia. rewrite lookup_seqZ_ge by lia. reflexivity.
Qed.

(** The loop, for any runtime: it queries the indices in order and prints
    one line per query that succeeded; the first query that fails is made
    a second time and ends the process. *)
Lemma list_names_spec rt :
  forall idx tr out,
    match fst (fst (list_names rt idx tr out)) with
    | Returned _ =>
        snd (fst (list_names rt idx tr out)) = tr ++ map hipGetDeviceProperties idx /\
        Forall (fun st => st = hipSuccess)
          (statuses_from rt tr (map hipGetDeviceProperties idx)) /\
        snd (list_names rt idx tr out) = out ++ map (device_line rt) idx
    | Exited code =>
        code = -1 /\
        exists (k : nat) i,
          idx !! k = Some i /\
          snd (fst (list_names rt idx tr out))
          = (tr ++ map hipGetDeviceProperties (take k idx))
              ++ [hipGetDeviceProperties i; hipGetDeviceProperties i] /\
          Forall (fun st => st = hipSuccess)
            (statuses_from rt tr (map hipGetDeviceProperties (take k idx))) /\
          rt_status rt (tr ++ map hipGetDeviceProperties (take k idx))
            (hipGetDeviceProperties i) <> hipSuccess
    | Thrown _ => False
    end.
Proof.
  induction idx as [|i idx IH]; intros tr out.
  - cbn. rewrite !app_nil_r. auto.
  - cbn [list_names]. rewrite getDeviceName_cases.
    destruct (hipError_eqb _ _) eqn:E.
    + apply hipError_eqb_eq in E.
      specialize (IH (tr ++ [hipGetDeviceProperties i])
                     (out ++ [cout_line [number i; text ": "; text (name (rt_properties rt i))]])).
      destruct (fst (fst (list_names rt idx _ _))).
      * destruct IH as (Htr & Hst & Hout). split; [|split].
        -- rewrite Htr. cbn [map]. rewrite <- app_assoc. reflexivity.
        -- cbn [map statuses_from]. constructor; assumption.
        -- rewrite Hout. cbn [map]. rewrite <- app_assoc. reflexivity.
      * exact IH.
      * destruct IH as (Hc & k & j & Hj & Htr & Hst & Hfail). split; [assumption|].
        exists (S k), j. split; [exact Hj|]. cbn [take map statuses_from].
        split; [|split].
        -- rewrite Htr. rewrite <- !app_assoc. reflexivity.
        -- constructor; assumption.
        -- rewrite <- app_assoc in Hfail. exact Hfail.
    + cbn [fst snd]. split; [reflexivity|]. exists 0%nat, i.
      split; [reflexivity|]. cbn [take map statuses_from]. rewrite app_nil_r.
      split; [reflexivity|]. split; [constructor|].
      intros H. rewrite H in E. discriminate.
Qed.

(** X14. [listDevices] first reads the device count. If that succeeds and
    the count is 0, it writes the one line "No devices found." to [cerr],
    nothing to [cout], and queries no device. Whatever the runtime answers,
    it never throws. When it returns with a count other than 0, the count
    and the queries of the devices 0, 1, 2, ... below the count were made
    in this order, each once, all succeeded, and it has written a blank
    line, "Devices:", one line "i: name" per device in index order, and a
    blank line. When the process is ended, the code is -1 and the list of
    calls is: calls that succeeded (nothing, or the count and the queries
    of the devices below some [k] below the count, in order), then the call
    that failed (the count, or the query of device [k]), then the same call
    once more, made by [HIP_CHECK] for its message. *)
Theorem X14_listDevices_lists_every_device_in_order rt :
  let r := listDevices rt [] in
  let count := rt_device_count rt in
  (rt_status rt [] hipGetDeviceCount = hipSuccess -> count = 0 ->
   r = (Returned tt, [hipGetDeviceCount], [cerr_line [text "No devices found."]])) /\
  match fst (fst r) with
  | Returned _ =>
      count <> 0 ->
      snd (fst r) = hipGetDeviceCount :: map hipGetDeviceProperties (seqZ 0 count) /\
      Forall (fun st => st = hipSuccess) (statuses_from rt [] (snd (fst r))) /\
      snd r = [cout_line []; cout_line [text "Devices:"]]
              ++ map (device_line rt) (seqZ 0 count)
              ++ [cout_line []]
  | Exited code =>
      code = -1 /\
      exists pre c,
        snd (fst r) = pre ++ [c; c] /\
        rt_status rt pre c <> hipSuccess /\
        Forall (fun st => st = hipSuccess) (statuses_from rt [] pre) /\
        ((pre = [] /\ c = hipGetDeviceCount) \/
         exists k, 0 <= k < count /\
           pre = hipGetDeviceCount :: map hipGetDeviceProperties (seqZ 0 k) /\
           c = hipGetDeviceProperties k)
  | Thrown _ => False
  end.
Proof.
  cbv zeta. unfold listDevices.
  cbv beta iota zeta delta [hbind HIP_CHECK call hret exit]. cbn [app].
  destruct (hipError_eqb (rt_status rt [] hipGetDeviceCount) hipSuccess) eqn:E.
  2:{ cbn [fst snd]. split; [intros H; rewrite H in E; discriminate|].
      split; [reflexivity|]. exists [], hipGetDeviceCount.
      split; [reflexivity|]. split; [intros H; rewrite H in E; discriminate|].
      split; [constructor|]. left. split; reflexivity. }
  apply hipError_eqb_eq in E.
  destruct (rt_device_count rt =? 0) eqn:Ez.
  { apply Z.eqb_eq in Ez. cbn [fst snd]. split; [reflexivity|]. congruence. }
  apply Z.eqb_neq in Ez.
  split; [congruence|].
  pose proof (list_names_spec rt (seqZ 0 (rt_device_count rt)) [hipGetDeviceCount]
                [cout_line []; cout_line [text "Devices:"]]) as Hres.
  destruct (list_names rt _ _ _) as [[o tr'] out'] eqn:El. cbn [fst snd] in *.
  destruct o as [u|e|c]; cbn [fst snd].
  - intros _. destruct Hres as (-> & Hst & ->).
    split; [reflexivity|]. split.
    + cbn [app statuses_from]. constructor; assumption.
    + rewrite <- app_assoc. reflexivity.
  - destruct Hres.
  - destruct Hres as (Hc & k & i & Hi & Htr & Hst & Hfail). split; [assumption|].
    apply lookup_seqZ in Hi. destruct Hi as [-> Hk].
    rewrite take_seqZ in Htr, Hst, Hfail by lia.
    exists (hipGetDeviceCount :: map hipGetDeviceProperties (seqZ 0 (Z.of_nat k))),
           (hipGetDeviceProperties (0 + Z.of_nat k)).
    split; [exact Htr|]. split; [exact Hfail|]. split.
    + cbn [statuses_from]. constructor; assumption.
    + right. exists (Z.of_nat k). split; [lia|]. split; [reflexivity|].
      rewrite Z.add_0_l. reflexivity.
Qed.

End Listing.

Section ReadBackSizes.
Context {T : Type} {numeric : Numeric T}.
Implicit Types (m : memory T) (s : HIPStream T).

Lemma copy_cells_long (src : list T) :
  forall len k dst,
    (k + len <= length src)%nat -> (k + len <= length dst)%nat ->
    exists r, copy_cells (seq k len) dst src = Some r /\
              length r = length dst /\
              forall j, r !! j = if decide (k <= j < k + len)%nat then src !! j else dst !! j.
Proof.
  induction len as [|len IH]; intros k dst Hs Hd.
  - exists dst. split; [reflexivity|]. split; [reflexivity|].
    intros j. destruct (decide _); [lia|reflexivity].
  - cbn [seq copy_cells].
    destruct (lookup_lt_is_Some_2 src k ltac:(lia)) as [v Hv]. rewrite Hv.
    rewrite (proj2 (Nat.ltb_lt _ _)) by lia.
    destruct (IH (S k) (<[k := v]> dst)) as (r & Hr & Hrl & Hrj).
    { lia. } { rewrite length_insert. lia. }
    exists r. split; [assumption|]. split; [rewrite Hrl; apply length_insert|].
    intros j. rewrite Hrj. destruct (decide (j = k)) as [->|Hne].
    + rewrite list_lookup_insert_eq by lia.
      repeat destruct (decide _); try lia; congruence.
    + rewrite list_lookup_insert_ne by congruence.
      repeat destruct (decide _); try lia; reflexivity.
Qed.

Lemma copy_cells_short (src : list T) :
  forall len k dst,
    (k + len <= length src)%nat -> (k <= length dst < k + len)%nat ->
    copy_cells (seq k len) dst src = None.
Proof.
  induction len as [|len IH]; intros k dst Hs Hd; [lia|].
  cbn [seq copy_cells].
  destruct (lookup_lt_is_Some_2 src k ltac:(lia)) as [v Hv]. rewrite Hv.
  destruct (k <? length dst)%nat eqn:E; [|reflexivity].
  apply Nat.ltb_lt in E. apply IH; [lia|]. rewrite length_insert. lia.
Qed.

Lemma copy_cells_over (dst src : list T) n :
  n = length src -> (n <= length dst)%nat ->
  copy_cells (seq 0 n) dst src = Some (src ++ drop n dst).
Proof.
  intros -> Hlen.
  destruct (copy_cells_long src (length src) 0%nat dst ltac:(lia) ltac:(lia))
    as (r & Hr & Hrl & Hrj).
  rewrite Hr. f_equal. apply list_eq. intros j. rewrite Hrj.
  destruct (decide _) as [Hj|Hj].
  - rewrite lookup_app_l by lia. reflexivity.
  - rewrite lookup_app_r by lia. rewrite lookup_drop. f_equal. lia.
Qed.

(** X15. The two builds of [read_arrays] agree only on host vectors of
    [array_size] elements. On a well-formed object: the [hipMemcpy] build
    copies as many elements as each host vector holds, so shorter vectors
    receive a prefix of the device array, and a longer one makes the copy
    read past the device array (a fault); the [MANAGED] build writes
    [array_size] elements, so longer vectors keep their tail, and a shorter
    one is written past its end (a fault). *)
Theorem X15_read_arrays_on_other_host_sizes s (a b c : list T) :
  well_formed s ->
  let n := Z.to_nat (array_size s) in
  ((length a <= n)%nat -> (length b <= n)%nat -> (length c <= n)%nat ->
   read_arrays explicit_copy s a b c
   = Some (take (length a) (d_a (mem s)), take (length b) (d_b (mem s)),
           take (length c) (d_c (mem s)))) /\
  ((n < length a)%nat \/ (n < length b)%nat \/ (n < length c)%nat ->
   read_arrays explicit_copy s a b c = None) /\
  ((n <= length a)%nat -> (n <= length b)%nat -> (n <= length c)%nat ->
   read_arrays managed s a b c
   = Some (d_a (mem s) ++ drop n a, d_b (mem s) ++ drop n b, d_c (mem s) ++ drop n c)) /\
  ((length a < n)%nat \/ (length b < n)%nat \/ (length c < n)%nat ->
   read_arrays managed s a b c = None).
Proof.
  intros Hwf n. destruct (well_formed_lengths s Hwf) as (La & Lb & Lc). fold n in La, Lb, Lc.
  unfold read_arrays, hipMemcpy_to_host. rewrite La, Lb, Lc. fold n.
  split; [|split; [|split]].
  - intros Ha Hb Hc. rewrite !(proj2 (Nat.leb_le _ _)) by assumption. reflexivity.
  - intros H.
    destruct (length a <=? n)%nat eqn:Ea, (length b <=? n)%nat eqn:Eb,
             (length c <=? n)%nat eqn:Ec; try reflexivity.
    apply Nat.leb_le in Ea, Eb, Ec. lia.
  - intros Ha Hb Hc. rewrite !copy_cells_over by (assumption || (symmetry; assumption)).
    reflexivity.
  - intros H.
    assert (Hshort : forall dst src : list T,
               length src = n -> (length dst < n)%nat ->
               copy_cells (seq 0 n) dst src = None).
    { intros dst src Hs Hd. apply copy_cells_short; lia. }
    destruct H as [H|[H|H]].
    + rewrite (Hshort a _ La H). reflexivity.
    + rewrite (Hshort b _ Lb H). destruct (copy_cells _ a _); reflexivity.
    + rewrite (Hshort c _ Lc H).
      destruct (copy_cells _ a _); [destruct (copy_cells _ b _)|]; reflexivity.
Qed.

End ReadBackSizes.

Section ExactSum.
Context {T : Type} {numeric : Numeric T}.
Hypothesis exact : exact_addition (T:=T).
Implicit Types (m : memory T) (s : HIPStream T) (l : list T).

Lemma fold_left_sum l x : fold_left elt_add l x = elt_add x (sum_list l).
Proof.
  unfold sum_list. revert x. induction l as [|y l IH]; intros x; cbn [fold_left].
  - rewrite (add_comm exact), (add_zero exact). reflexivity.
  - rewrite IH, (IH (elt_add elt_zero y)), (add_zero exact), (add_assoc exact). reflexivity.
Qed.

Lemma sum_list_cons x l : sum_list (x :: l) = elt_add x (sum_list l).
Proof.
  unfold sum_list at 1. cbn [fold_left]. rewrite fold_left_sum, (add_zero exact). reflexivity.
Qed.

Lemma sum_list_app l1 l2 : sum_list (l1 ++ l2) = elt_add (sum_list l1) (sum_list l2).
Proof.
  unfold sum_list at 1. rewrite fold_left_app. fold (sum_list l1). apply fold_left_sum.
Qed.

Lemma sum_list_perm l1 l2 : l1 ≡ₚ l2 -> sum_list l1 = sum_list l2.
Proof.
  induction 1 as [|x l1 l2 _ IH|x y l|l1 l2 l3 _ IH1 _ IH2].
  - reflexivity.
  - rewrite !sum_list_cons, IH. reflexivity.
  - rewrite !sum_list_cons, !(add_assoc exact), (add_comm exact y x). reflexivity.
  - congruence.
Qed.

Lemma sum_list_zip_with l1 l2 :
  length l1 = length l2 ->
  sum_list (zip_with elt_add l1 l2) = elt_add (sum_list l1) (sum_list l2).
Proof.
  revert l2. induction l1 as [|x l1 IH]; intros [|y l2] Hlen; try discriminate.
  - cbn. unfold sum_list. cbn. rewrite (add_zero exact). reflexivity.
  - cbn [zip_with]. rewrite !sum_list_cons, IH by (cbn in Hlen; lia).
    rewrite !(add_assoc exact). f_equal.
    rewrite <- !(add_assoc exact). f_equal. apply (add_comm exact).
Qed.

Lemma sum_list_flat_map {A} (f : A -> list T) (xs : list A) :
  sum_list (map (fun x => sum_list (f x)) xs) = sum_list (flat_map f xs).
Proof.
  induction xs as [|x xs IH]; [reflexivity|].
  cbn [map flat_map]. rewrite sum_list_cons, sum_list_app, IH. reflexivity.
Qed.

(** *** The tree reduction sums the shared array *)

Lemma reduce_lanes_lookup offset tb :
  forall row k r,
    reduce_lanes offset tb k row = Some r ->
    length r = length row /\
    forall j x, row !! j = Some x ->
      r !! j = if Z.of_nat (k + j) <? offset
               then elt_add x <$> tb !! Z.to_nat (Z.of_nat (k + j) + offset)
               else Some x.
Proof.
  induction row as [|x0 row IH]; intros k r Hr.
  - injection Hr as <-. split; [reflexivity|]. intros j x Hj. discriminate.
  - cbn [reduce_lanes] in Hr.
    destruct (reduce_lanes offset tb (S k) row) as [rest|] eqn:Erest; [|discriminate].
    destruct (IH (S k) rest Erest) as [Hlen Hrest].
    assert (Hshift : forall j, (S k + j = k + S j)%nat) by (intros; lia).
    destruct (Z.of_nat k <? offset) eqn:Ek.
    + destruct (tb !! Z.to_nat (Z.of_nat k + offset)) as [y|] eqn:Ey; [|discriminate].
      injection Hr as <-. split; [cbn; lia|].
      intros [|j] x Hj; cbn in Hj.
      * injection Hj as <-. rewrite Nat.add_0_r, Ek, Ey. reflexivity.
      * rewrite <- Hshift. exact (Hrest j x Hj).
    + injection Hr as <-. split; [cbn; lia|].
      intros [|j] x Hj; cbn in Hj.
      * injection Hj as <-. rewrite Nat.add_0_r, Ek. reflexivity.
      * rewrite <- Hshift. exact (Hrest j x Hj).
Qed.

Lemma reduce_step_sum (o : nat) tb r :
  (2 * o <= length tb)%nat ->
  reduce_lanes (Z.of_nat o) tb 0 tb = Some r ->
  length r = length tb /\ sum_list (take o r) = sum_list (take (2 * o) tb).
Proof.
  intros Hlen Hr. destruct (reduce_lanes_lookup _ _ _ _ _ Hr) as [Hrl Hlook].
  split; [assumption|].
  assert (Htake : take o r = zip_with elt_add (take o tb) (take o (drop o tb))).
  { apply list_eq. intros j. rewrite lookup_zip_with.
    destruct (decide (j < o)%nat) as [Hj|Hj].
    - rewrite !lookup_take_lt by assumption. rewrite lookup_drop.
      destruct (lookup_lt_is_Some_2 tb j ltac:(lia)) as [x Hx].
      rewrite (Hlook j x Hx), Hx. cbn [Nat.add mbind option_bind].
      rewrite (proj2 (Z.ltb_lt _ _)) by lia.
      replace (Z.to_nat (Z.of_nat j + Z.of_nat o)) with (o + j)%nat by lia.
      destruct (tb !! (o + j)%nat); reflexivity.
    - rewrite !lookup_take_ge by lia. reflexivity. }
  rewrite Htake, sum_list_zip_with.
  - rewrite <- sum_list_app, take_take_drop. f_equal. f_equal. lia.
  - rewrite !length_take, length_drop. lia.
Qed.

Lemma tree_reduce_sum :
  forall (k fuel : nat) tb,
    (2 * 2 ^ k <= length tb)%nat -> (2 ^ k < fuel)%nat ->
    exists r, tree_reduce fuel (Z.of_nat (2 ^ k)) tb = Some r /\
              r !! 0%nat = Some (sum_list (take (2 * 2 ^ k) tb)).
Proof.
  induction k as [|k IH]; intros fuel tb Hlen Hfuel.
  - change (2 ^ 0)%nat with 1%nat in *.
    destruct fuel as [|[|fuel]]; try lia. cbn [tree_reduce].
    change (0 <? Z.of_nat 1) with true. cbv iota.
    destruct (reduce_lanes_total (Z.of_nat 1) tb tb 0%nat) as (r & Hr & _); [intros; lia|lia|].
    rewrite Hr. change (Z.of_nat 1 / 2) with 0. change (0 <? 0) with false. cbv iota.
    exists r. split; [reflexivity|].
    destruct (reduce_step_sum 1 tb r Hlen Hr) as [Hrl Hsum].
    rewrite <- Hsum. destruct r as [|x r]; [cbn in Hrl; lia|].
    cbn [take lookup list_lookup]. rewrite sum_list_cons.
    unfold sum_list. cbn. rewrite (add_comm exact), (add_zero exact). reflexivity.
  - destruct fuel as [|fuel]; [lia|]. cbn [tree_reduce].
    assert (Hpow : (2 ^ S k = 2 * 2 ^ k)%nat) by (cbn; lia).
    assert (Hpos : (0 < 2 ^ k)%nat) by (apply Nat.neq_0_lt_0, Nat.pow_nonzero; lia).
    rewrite (proj2 (Z.ltb_lt 0 (Z.of_nat (2 ^ S k)))) by lia.
    destruct (reduce_lanes_total (Z.of_nat (2 ^ S k)) tb tb 0%nat) as (r1 & Hr1 & _);
      [intros; lia|lia|].
    rewrite Hr1.
    destruct (reduce_step_sum (2 ^ S k) tb r1 Hlen Hr1) as [Hrl Hsum].
    replace (Z.of_nat (2 ^ S k) / 2) with (Z.of_nat (2 ^ k)).
    2:{ rewrite Hpow, Nat2Z.inj_mul, Z.mul_comm, Z.div_mul by lia. reflexivity. }
    destruct (IH fuel r1 ltac:(lia) ltac:(lia)) as (r & Hr & Hhead).
    exists r. split; [assumption|]. rewrite Hhead, <- Hpow, Hsum. reflexivity.
Qed.

Lemma block_fold_sum tb : length tb = 1024%nat -> block_fold 1024 tb = sum_list tb.
Proof.
  intros Hlen. unfold block_fold.
  assert (H9 : (2 ^ 9 = 512)%nat) by reflexivity.
  destruct (tree_reduce_sum 9 (S (Z.to_nat 1024)) tb ltac:(lia) ltac:(lia))
    as (r & Hr & Hhead).
  rewrite H9 in Hr, Hhead. change (Z.of_nat 512) with (1024 / 2) in Hr. rewrite Hr.
  destruct r as [|v r]; [discriminate|]. cbn in Hhead. injection Hhead as ->.
  rewrite take_ge by lia. reflexivity.
Qed.

Lemma lane_sum_map (a b : list T) js acc :
  lane_sum a b js acc = fold_left elt_add (map (prod_at a b) js) acc.
Proof.
  revert acc. induction js as [|j js IH]; intros acc; [reflexivity|].
  cbn [lane_sum fold_left map]. apply IH.
Qed.

Lemma map_flat_map {A B C} (g : B -> C) (f : A -> list B) (xs : list A) :
  map g (flat_map f xs) = flat_map (fun x => map g (f x)) xs.
Proof.
  induction xs as [|x xs IH]; [reflexivity|].
  cbn [flat_map]. rewrite map_app, IH. reflexivity.
Qed.

Lemma prod_at_seqZ (a b : list T) N :
  Z.of_nat (length a) = N -> Z.of_nat (length b) = N ->
  map (prod_at a b) (seqZ 0 N) = zip_with elt_mul a b.
Proof.
  intros Ha Hb. apply list_eq. intros j. rewrite list_lookup_fmap, lookup_zip_with.
  destruct (decide (Z.of_nat j < N)) as [Hj|Hj].
  - rewrite lookup_seqZ_lt by assumption. cbn [fmap option_fmap option_map].
    unfold prod_at. rewrite Z.add_0_l, Nat2Z.id.
    destruct (lookup_lt_is_Some_2 a j ltac:(lia)) as [x ->].
    destruct (lookup_lt_is_Some_2 b j ltac:(lia)) as [y ->]. reflexivity.
  - rewrite lookup_seqZ_ge by lia. rewrite (lookup_ge_None_2 a) by lia. reflexivity.
Qed.

Lemma dot_value_exact s :
  well_formed s -> dot_value s = dot_product (d_a (mem s)) (d_b (mem s)).
Proof.
  intros Hwf. pose proof Hwf as [[HN Hrem] Ha Hb Hc Hnb Hsm].
  unfold dot_value, dot_product. fold (sum_list (dot_partials s)). unfold dot_partials.
  rewrite (map_ext _ (fun blk =>
             sum_list (flat_map (fun t => map (prod_at (d_a (mem s)) (d_b (mem s)))
                                   (lane_indices (dot_fuel s) (array_size s)
                                      (dot_num_blocks s) TBSIZE blk t))
                         (seq 0 (Z.to_nat TBSIZE))))).
  2:{ intros blk. unfold block_total.
      rewrite block_fold_sum by (rewrite length_map, length_seq; reflexivity).
      rewrite <- sum_list_flat_map.
      apply (f_equal sum_list). apply map_ext. intros t. apply lane_sum_map. }
  rewrite sum_list_flat_map.
  rewrite <- (prod_at_seqZ _ _ (array_size s) Ha Hb).
  apply sum_list_perm.
  rewrite (flat_map_ext _ (fun blk => map (prod_at (d_a (mem s)) (d_b (mem s)))
             (flat_map (lane_indices (dot_fuel s) (array_size s) (dot_num_blocks s) TBSIZE blk)
                (seq 0 (Z.to_nat TBSIZE))))).
  2:{ intros blk. symmetry. apply map_flat_map. }
  rewrite <- map_flat_map. apply Permutation_map.
  apply (grid_indices_perm (dot_fuel s) (array_size s) (dot_num_blocks s) TBSIZE);
    unfold TBSIZE, dot_fuel; lia.
Qed.

End ExactSum.

(** X16. When the addition of the element type is associative and
    commutative with [T{}] neutral (exact arithmetic), [dot] on a
    well-formed object returns the sum of the products [a[i] * b[i]] over
    all indices, for any array contents and any number of work groups: the
    grid-stride loop, the tree reduction and the host loop together add
    every product exactly once. *)
Theorem X16_dot_is_the_dot_product_in_exact_arithmetic
    {T : Type} {numeric : Numeric T} (s : HIPStream T) :
  exact_addition (T:=T) -> well_formed s ->
  exists s' l, dot s = Some (dot_product (d_a (mem s)) (d_b (mem s)), s', l).
Proof.
  intros Hexact Hwf. rewrite (dot_spec s Hwf), (dot_value_exact Hexact s Hwf).
  eexists _, _. reflexivity.
Qed.

(** ** Instances of the further properties *)

Lemma X1_witness :
  let s := uniform_stream 1024 1 (float_lit 1 0) (float_lit 2 0) nan32 nan32 in
  well_formed s /\
  exists s' l, triad (float_lit 3 0) s = Some (s', l) /\
               d_a (mem s') = zip_with (fun y z => elt_add y (elt_mul (float_lit 3 0) z))
                                (d_b (mem s)) (d_c (mem s)).
Proof.
  intros s.
  assert (Hs : well_formed s) by (apply uniform_stream_well_formed; [apply valid_size_1024|lia]).
  split; [exact Hs|].
  exact (proj1 (proj2 (proj2 (proj2
           (X1_kernels_compute_their_table_row (float_lit 3 0) s Hs))))).
Defined.

Lemma X2_witness :
  let s := uniform_stream 1024 1 (float_lit 1 0) (float_lit 2 0) nan32 nan32 in
  (well_formed s /\ (1 <= 3)%nat) /\
  exists s1 l1,
    copy s = Some (s1, l1) /\ repeat_call copy 3 s = Some s1 /\
    d_c (mem s1) = d_a (mem s) /\ d_a (mem s1) = d_a (mem s) /\
    d_b (mem s1) = d_b (mem s) /\ sums (mem s1) = sums (mem s).
Proof.
  intros s.
  assert (Hs : well_formed s) by (apply uniform_stream_well_formed; [apply valid_size_1024|lia]).
  assert (HR : (1 <= 3)%nat) by lia.
  split; [split; [exact Hs|exact HR]|].
  exact (X2_copy_is_idempotent 3 s Hs HR).
Defined.

Lemma X3_witness :
  let s := uniform_stream 1024 1 nan64 (double_lit 2 0) (double_lit 1 0) nan64 in
  (well_formed s /\ (1 <= 2)%nat) /\
  exists s1 l1 l2,
    triad (double_lit 1 (-1)) s = Some (s1, l1) /\
    triad (double_lit 1 (-1)) s1 = Some (s1, l2) /\
    repeat_call (triad (double_lit 1 (-1))) 2 s = Some s1.
Proof.
  intros s.
  assert (Hs : well_formed s) by (apply uniform_stream_well_formed; [apply valid_size_1024|lia]).
  assert (HR : (1 <= 2)%nat) by lia.
  split; [split; [exact Hs|exact HR]|].
  exact (X3_triad_is_idempotent (double_lit 1 (-1)) 2 s Hs HR).
Defined.

Lemma X4_witness :
  let s := uniform_stream 1024 1 nan32 nan32 nan32 nan32 in
  let cs := [call_dot; call_nstream; call_init_arrays (float_lit 1 0) (float_lit 2 0) nan32;
             call_add; call_dot; call_mul; call_copy; call_triad] in
  well_formed s /\
  exists s', run_methods (float_lit 3 0) cs s = Some s' /\ well_formed s' /\
             array_size s' = array_size s /\ dot_num_blocks s' = dot_num_blocks s.
Proof.
  intros s cs.
  assert (Hs : well_formed s) by (apply uniform_stream_well_formed; [apply valid_size_1024|lia]).
  split; [exact Hs|].
  exact (X4_any_call_sequence_runs (float_lit 3 0) cs s Hs).
Defined.

Lemma X5_witness :
  (valid_size 1024 /\ 0 < 1 < 2 ^ 22) /\
  run_methods (float_lit 3 0)
    (concat (replicate 2 [call_copy; call_mul; call_add; call_triad]))
    (uniform_stream 1024 1 (float_lit 1 0) (float_lit 2 0) nan32 nan32)
  = Some (let '(a, b, c) :=
            Nat.iter 2 (round_values (float_lit 3 0)) (float_lit 1 0, float_lit 2 0, nan32) in
          uniform_stream 1024 1 a b c nan32).
Proof.
  assert (Hnb : 0 < 1 < 2 ^ 22) by lia.
  split; [split; [exact valid_size_1024|exact Hnb]|].
  exact (X5_rounds_follow_the_scalar_recurrence (float_lit 3 0) 1024 1
           (float_lit 1 0) (float_lit 2 0) nan32 nan32 2 valid_size_1024 Hnb).
Defined.

Lemma X6_witness :
  let s1 := uniform_stream 1024 1 (float_lit 1 0) (float_lit 2 0) nan32 nan32 in
  let s2 := uniform_stream 1024 1 (float_lit 1 0) (float_lit 2 0) (float_lit 5 0) (float_lit 7 0) in
  (well_formed s1 /\ well_formed s2 /\
   array_size s2 = array_size s1 /\ dot_num_blocks s2 = dot_num_blocks s1 /\
   d_a (mem s2) = d_a (mem s1) /\ d_b (mem s2) = d_b (mem s1)) /\
  exists v s1' l1 s2' l2,
    dot s1 = Some (v, s1', l1) /\ dot s2 = Some (v, s2', l2) /\
    v = fold_left elt_add (sums (mem s1')) elt_zero /\
    sums (mem s2') = sums (mem s1') /\
    Z.of_nat (length (sums (mem s1'))) = dot_num_blocks s1 /\
    d_c (mem s1') = d_c (mem s1) /\ d_c (mem s2') = d_c (mem s2) /\
    exists l3, dot s1' = Some (v, s1', l3).
Proof.
  intros s1 s2.
  assert (H1 : well_formed s1) by (apply uniform_stream_well_formed; [apply valid_size_1024|lia]).
  assert (H2 : well_formed s2) by (apply uniform_stream_well_formed; [apply valid_size_1024|lia]).
  split; [split; [exact H1|split; [exact H2|repeat split; reflexivity]]|].
  exact (X6_dot_is_the_sum_of_its_partials s1 s2 H1 H2 eq_refl eq_refl eq_refl eq_refl).
Defined.

Lemma X7_witness :
  let s := uniform_stream 8192 2 (float_lit 1 0) (float_lit 2 0) nan32 nan32 in
  (well_formed s /\ 0 < 4 /\ dot_num_blocks s = blocks_for 4 (array_size s) /\
   Z.of_nat 1 < dot_num_blocks s /\ Z.of_nat 5 < TBSIZE) /\
  exists v l,
    dot_lane (dot_fuel s) Da Db (array_size s)
      {| threadIdx_x := Z.of_nat 5; blockIdx_x := Z.of_nat 1;
         blockDim_x := TBSIZE; gridDim_x := dot_num_blocks s |} (mem s)
    = Some (v, mem s, l) /\
    loads_of Da l = loads_of Db l /\
    1 <= Z.of_nat (length (loads_of Da l)) <= 4.
Proof.
  intros s.
  assert (Hs : well_formed s) by (apply uniform_stream_well_formed; [apply valid_size_8192|lia]).
  assert (He : 0 < 4) by lia.
  assert (Hnb : dot_num_blocks s = blocks_for 4 (array_size s)) by reflexivity.
  assert (Hb : Z.of_nat 1 < dot_num_blocks s) by (cbn; lia).
  assert (Ht : Z.of_nat 5 < TBSIZE) by (unfold TBSIZE; lia).
  split; [split; [exact Hs|split; [exact He|split; [exact Hnb|split; [exact Hb|exact Ht]]]]|].
  exact (X7_lane_reads_between_one_and_elements_per_lane 4 s 1 5 Hs He Hnb Hb Ht).
Defined.

Lemma X8_witness :
  let rt := lenient (two_devices GiB GiB) in
  exists s tr,
    HIPStream_new 4 rt 1024 1 [] = (Returned s, tr) /\
    (TBSIZE | 1024) /\ 1 < rt_device_count rt /\
    to_size_t (to_size_t (3 * 1024) * sizeof (T:=float))
      <= totalGlobalMem (rt_properties rt 0) /\
    tr = [hipGetDeviceCount; hipSetDevice 1; hipGetDeviceProperties 1;
          hipSetDevice 1; hipDriverGetVersion;
          hipHostMalloc (to_size_t (sizeof (T:=float) * blocks_for 4 1024));
          hipGetDeviceProperties 0;
          hipMalloc (to_size_t (sizeof (T:=float) * 1024));
          hipMalloc (to_size_t (sizeof (T:=float) * 1024));
          hipMalloc (to_size_t (sizeof (T:=float) * 1024))] /\
    Forall (fun st => st = hipSuccess) (statuses_from rt [] tr) /\
    array_size s = 1024 /\ dot_num_blocks s = blocks_for 4 1024.
Proof.
  intros rt.
  assert (Hsz : 0 < sizeof (T:=float) <= 2 ^ 16) by (cbn; lia).
  assert (Hidx : 1 < rt_device_count rt) by (cbn; lia).
  assert (Hok : runtime_ok rt) by (intros tr c; reflexivity).
  assert (Hmem : 3 * 1024 * sizeof (T:=float) <= totalGlobalMem (rt_properties rt 0))
    by (cbn; unfold GiB; lia).
  assert (He : 0 < 4) by lia.
  destruct (HIPStream_new_success 4 rt 1024 1 valid_size_1024 Hsz Hidx Hok Hmem He)
    as (s & tr & Hnew & _).
  exists s, tr. split; [exact Hnew|].
  exact (X8_a_returned_object_passed_every_test 4 rt 1024 1 s tr Hnew).
Defined.

Lemma X9_witness :
  let rt := lenient (two_devices GiB 1024) in
  (valid_size 1024 /\ 0 < sizeof (T:=float) <= 2 ^ 16 /\
   1 < rt_device_count rt /\ runtime_ok rt /\ 0 < 4) /\
  ((exists s tr, HIPStream_new 4 rt 1024 1 [] = (Returned s, tr))
   <-> 3 * 1024 * sizeof (T:=float) <= totalGlobalMem (rt_properties rt 0)).
Proof.
  intros rt.
  assert (Hsz : 0 < sizeof (T:=float) <= 2 ^ 16) by (cbn; lia).
  assert (Hidx : 1 < rt_device_count rt) by (cbn; lia).
  assert (Hok : runtime_ok rt) by (intros tr c; reflexivity).
  assert (He : 0 < 4) by lia.
  split; [split; [exact valid_size_1024|split; [exact Hsz|split; [exact Hidx|split; [exact Hok|exact He]]]]|].
  exact (proj1 (X9_construction_succeeds_iff_capacity_suffices 4 rt 1024 1
                  valid_size_1024 Hsz Hidx Hok He)).
Defined.

Lemma X10_witness :
  let rt := two_devices GiB GiB in
  ((TBSIZE | 1024) /\ rt_device_count rt <= 2 /\
   rt_status rt [] hipGetDeviceCount = hipSuccess) /\
  HIPStream_new 4 rt 1024 2 []
  = (Thrown (runtime_error msg_device_index), [hipGetDeviceCount]) /\
  error_kind_of (fst (HIPStream_new 4 rt 1024 2 [])) = Some ConfigurationError.
Proof.
  intros rt.
  assert (Hdiv : (TBSIZE | 1024)) by (exists 1; reflexivity).
  assert (Hidx : rt_device_count rt <= 2) by (cbn; lia).
  assert (Hst : rt_status rt [] hipGetDeviceCount = hipSuccess) by reflexivity.
  split; [split; [exact Hdiv|split; [exact Hidx|exact Hst]]|].
  exact (X10_index_at_or_above_count_is_refused 4 rt 1024 2 Hdiv Hidx Hst).
Defined.

Lemma X14_witness :
  let rt := two_devices GiB GiB in
  (rt_device_count rt <> 0 /\
   exists tr out, listDevices rt [] = (Returned tt, tr, out)) /\
  snd (listDevices rt [])
  = [cout_line []; cout_line [text "Devices:"];
     cout_line [number 0; text ": "; text "gfx90a-0"];
     cout_line [number 1; text ": "; text "gfx90a-1"];
     cout_line []].
Proof.
  intros rt.
  assert (Hcount : rt_device_count rt <> 0) by (cbn; lia).
  split; [split; [exact Hcount|eexists _, _; reflexivity]|].
  pose proof (X14_listDevices_lists_every_device_in_order rt) as H.
  cbv zeta in H. destruct H as (_ & H).
  change (fst (fst (listDevices rt []))) with (Returned tt : outcome unit) in H.
  exact (proj2 (proj2 (H Hcount))).
Defined.

Lemma X15_witness :
  let s := uniform_stream 1024 1 (double_lit 1 0) (double_lit 2 0) (double_lit 3 0) nan64 in
  let short := [nan64; nan64] in
  (well_formed s /\ (length short <= Z.to_nat (array_size s))%nat) /\
  read_arrays explicit_copy s short short short
  = Some (take (length short) (d_a (mem s)), take (length short) (d_b (mem s)),
          take (length short) (d_c (mem s))).
Proof.
  intros s short.
  assert (Hs : well_formed s) by (apply uniform_stream_well_formed; [apply valid_size_1024|lia]).
  assert (Hl : (length short <= Z.to_nat (array_size s))%nat) by (change (2 <= Z.to_nat 1024)%nat; lia).
  split; [split; [exact Hs|exact Hl]|].
  exact (proj1 (X15_read_arrays_on_other_host_sizes s short short short Hs) Hl Hl Hl).
Defined.

Lemma integer_addition_exact : exact_addition (numeric:=integer_numeric).
Proof. constructor; cbn; intros; lia. Qed.

Lemma X16_witness :
  let s := uniform_stream (T:=Z) 1024 1 3 5 0 0 in
  (exact_addition (numeric:=integer_numeric) /\ well_formed s) /\
  exists s' l,
    dot (numeric:=integer_numeric) s
    = Some (dot_product (numeric:=integer_numeric) (d_a (mem s)) (d_b (mem s)), s', l).
Proof.
  intros s.
  assert (Hs : well_formed s)
    by (apply uniform_stream_well_formed; [apply valid_size_1024|lia]).
  split; [split; [exact integer_addition_exact|exact Hs]|].
  exact (X16_dot_is_the_dot_product_in_exact_arithmetic
           (numeric:=integer_numeric) s integer_addition_exact Hs).
Defined.
